(** * pyatop.structs.atop_230: layouts of ATOP 2.30 raw logs

    A shallow embedding of [src/pyatop/structs/atop_230.py].  The Python
    module declares every on-disk record of an ATOP 2.30 log as a
    [ctypes.Structure] subclass and gives the file header two methods,
    [check_compatibility] and [get_version].

    - A ctypes type is a term of [ctype]; a class body [_fields_ = [...]] is
      the field list of a [Structure] node, in declaration order.
    - [ctypes.sizeof] is [sizeof]: ctypes lays a [Structure] out with the
      native alignment of the platform, which is a parameter ([ABI]).
    - The module [atop_126], whose classes 2.30 re-exports, is not part of
      the sources at hand: it is a parameter ([atop_126.layouts]).
    - The methods of [Header] run in a small state-and-exception monad over
      the header object. *)

From Stdlib Require Import NArith ZArith QArith Bool List String Ascii Lia.
From Stdlib Require Import Decimal DecimalString.
Import ListNotations.

#[local] Open Scope string_scope.
#[local] Open Scope N_scope.

(** ** ctypes type descriptors *)

#[local] Unset Elimination Schemes.

Inductive ctype : Type :=
| c_char
| c_ushort
| c_int
| c_uint
| c_long
| c_ulong
| c_longlong
| c_float
| Array (elem : ctype) (length : N)
| Structure (name : string) (_fields_ : list (string * ctype)).

#[local] Set Elimination Schemes.

Declare Scope ctype_scope.
Delimit Scope ctype_scope with ctype.
Bind Scope ctype_scope with ctype.

(** [t * n] is the ctypes array type of [n] elements of type [t]. *)
Infix "*" := Array : ctype_scope.

(** Width and alignment of the C types whose layout differs between
    platforms; [char], [short], [int] and [float] are 1, 2, 4 and 4 bytes,
    aligned to their size, on every platform CPython runs on. *)
Record ABI : Type := {
  long_size : N;
  long_align : N;
  longlong_align : N
}.

(** x86-64 and AArch64 Linux. *)
Definition lp64 : ABI :=
  {| long_size := 8; long_align := 8; longlong_align := 8 |}.

(** i386 System V: [long long] is aligned to 4 bytes inside structures. *)
Definition ilp32 : ABI :=
  {| long_size := 4; long_align := 4; longlong_align := 4 |}.

(** The next multiple of [a] at or after [off]. *)
Definition round_up (off a : N) : N :=
  if a =? 0 then off else ((off + a - 1) / a) * a.

(** End offset of a run of fields, given as [(size, alignment)] pairs and
    laid out from offset [off]: every field starts at the next multiple of
    its alignment. *)
Fixpoint fields_end (off : N) (sa : list (N * N)) : N :=
  match sa with
  | [] => off
  | (s, a) :: rest => fields_end (round_up off a + s) rest
  end.

(** Start offset of every field of such a run. *)
Fixpoint fields_offsets (off : N) (sa : list (N * N)) : list N :=
  match sa with
  | [] => []
  | (s, a) :: rest => round_up off a :: fields_offsets (round_up off a + s) rest
  end.

(** Alignment of a structure: the largest alignment among its fields. *)
Definition fields_align (sa : list (N * N)) : N :=
  fold_right (fun x acc => N.max (snd x) acc) 1 sa.

(** Size and alignment of a ctypes type, as [ctypes.sizeof] and
    [ctypes.alignment] report them for a [Structure] without [_pack_]. *)
Fixpoint size_align (abi : ABI) (t : ctype) : N * N :=
  match t with
  | c_char => (1, 1)
  | c_ushort => (2, 2)
  | c_int => (4, 4)
  | c_uint => (4, 4)
  | c_long => (long_size abi, long_align abi)
  | c_ulong => (long_size abi, long_align abi)
  | c_longlong => (8, longlong_align abi)
  | c_float => (4, 4)
  | Array e n => (n * fst (size_align abi e), snd (size_align abi e))
  | Structure _ fs =>
      let sa := map (fun f => size_align abi (snd f)) fs in
      (round_up (fields_end 0 sa) (fields_align sa), fields_align sa)
  end.

Definition sizeof (abi : ABI) (t : ctype) : N := fst (size_align abi t).
Definition alignment (abi : ABI) (t : ctype) : N := snd (size_align abi t).

(** The field list of a structure type, and lookups in it. *)
Definition _fields_ (t : ctype) : list (string * ctype) :=
  match t with
  | Structure _ fs => fs
  | _ => []
  end.

Definition field_names (t : ctype) : list string := map fst (_fields_ t).
Definition field_types (t : ctype) : list ctype := map snd (_fields_ t).

Fixpoint assoc {A : Type} (k : string) (l : list (string * A)) : option A :=
  match l with
  | [] => None
  | (k', v) :: rest => if String.eqb k k' then Some v else assoc k rest
  end.

Definition field_type (t : ctype) (f : string) : option ctype :=
  assoc f (_fields_ t).

(** [Header.magic.offset] and the like: the byte offset of every field. *)
Definition offsets (abi : ABI) (t : ctype) : list (string * N) :=
  combine (field_names t)
          (fields_offsets 0 (map (size_align abi) (field_types t))).

Definition offsetof (abi : ABI) (t : ctype) (f : string) : option N :=
  assoc f (offsets abi t).

(** Sum of the widths of the declared fields, with nothing in between. *)
Definition sum_of_widths (abi : ABI) (t : ctype) : N :=
  fold_right N.add 0 (map (sizeof abi) (field_types t)).

(** Whether a scalar type is an unsigned integer type. *)
Definition is_unsigned (t : ctype) : bool :=
  match t with
  | c_ushort | c_uint | c_ulong => true
  | _ => false
  end.

(** ** The module [atop_126]

    [from pyatop.structs import atop_126]: the thirteen classes that the
    2.30 module takes over unchanged.  Their declarations are not among the
    sources, so every definition and theorem below is stated for an
    arbitrary such module. *)

Module atop_126.

Record layouts : Type := {
  UTSName : ctype;
  FreqCnt : ctype;
  WWWStat : ctype;
  IPv4Stats : ctype;
  ICMPv4Stats : ctype;
  UDPv4Stats : ctype;
  TCPStats : ctype;
  IPv6Stats : ctype;
  ICMPv6Stats : ctype;
  UDPv6Stats : ctype;
  NETStat : ctype;
  CPU : ctype;
  DSK : ctype
}.

End atop_126.

(** ** Constants of the module *)

(** Definitions from time.h *)
Definition time_t : ctype := c_long.

(** Definitions from atop.h *)
Definition count_t : ctype := c_longlong.
Definition ACCTACTIVE : N := 0x00000001.
Definition PATCHSTAT : N := 0x00000002.
Definition IOSTAT : N := 0x00000004.
Definition PATCHACCT : N := 0x00000008.

(** Definitions from sys/types.h *)
Definition off_t : ctype := c_long.

(** Definitions from photoproc.h *)
Definition PNAMLEN : N := 15.
Definition CMDLEN : N := 255.

(** Definitions from photosyst.h *)
Definition MAXCPU : N := 2048.
Definition MAXDSK : N := 1024.
Definition MAXLVM : N := 2048.
Definition MAXMDD : N := 256.
Definition MAXINTF : N := 128.
Definition MAXCONTAINER : N := 128.
Definition MAXNFSMOUNT : N := 64.
Definition MAXDKNAM : N := 32.

(** ** The layouts of ATOP 2.30 *)

Section Layouts.

Variable atop_126 : atop_126.layouts.

#[local] Open Scope ctype_scope.

Definition UTSName : ctype := atop_126.UTSName atop_126.

(** C Name: rawheader.  C Location: rawlog.c *)
Definition Header : ctype :=
  Structure "Header" [
    ("magic", c_uint);

    ("aversion", c_ushort);
    ("future1", c_ushort);
    ("future2", c_ushort);
    ("rawheadlen", c_ushort);
    ("rawreclen", c_ushort);
    ("hertz", c_ushort);
    ("sfuture", c_ushort * 6);
    ("sstatlen", c_uint);
    ("tstatlen", c_uint);
    ("utsname", UTSName);
    ("cfuture", c_char * 8);

    ("pagesize", c_uint);
    ("supportflags", c_int);
    ("osrel", c_int);
    ("osvers", c_int);
    ("ossub", c_int);
    ("ifuture", c_int * 6)
  ].

(** C Name: rawrecord.  C Location: rawlog.c *)
Definition Record : ctype :=
  Structure "Record" [
    ("curtime", time_t);

    ("flags", c_ushort);
    ("sfuture", c_ushort * 3);

    ("scomplen", c_uint);
    ("pcomplen", c_uint);
    ("interval", c_uint);
    ("ndeviat", c_uint);
    ("nactproc", c_uint);
    ("ntask", c_uint);
    ("totproc", c_uint);
    ("totrun", c_uint);
    ("totslpi", c_uint);
    ("totslpu", c_uint);
    ("totzomb", c_uint);
    ("nexit", c_uint);
    ("noverflow", c_uint);
    ("ifuture", c_uint * 6)
  ].

(** C Name: memstat.  C Location: photosyst.h.  C Parent: sstat *)
Definition MemStat : ctype :=
  Structure "MemStat" [
    ("physmem", count_t);
    ("freemem", count_t);
    ("buffermem", count_t);
    ("slabmem", count_t);
    ("cachemem", count_t);
    ("cachedrt", count_t);

    ("totswap", count_t);
    ("freeswap", count_t);

    ("pgscans", count_t);
    ("pgsteal", count_t);
    ("allocstall", count_t);
    ("swouts", count_t);
    ("swins", count_t);

    ("commitlim", count_t);
    ("committed", count_t);

    ("shmem", count_t);
    ("shmrss", count_t);
    ("shmswp", count_t);

    ("slabreclaim", count_t);

    ("tothugepage", count_t);
    ("freehugepage", count_t);
    ("hugepagesz", count_t);

    ("vmwballoon", count_t);

    ("cfuture", count_t * 8)
  ].

Definition FreqCnt : ctype := atop_126.FreqCnt atop_126.

(** C Name: percpu.  C Location: photosyst.h.  C Parent: cpustat *)
Definition PerCPU : ctype :=
  Structure "PerCPU" [
    ("cpunr", c_int);
    ("stime", count_t);
    ("utime", count_t);
    ("ntime", count_t);
    ("itime", count_t);
    ("wtime", count_t);
    ("Itime", count_t);
    ("Stime", count_t);
    ("steal", count_t);
    ("guest", count_t);
    ("freqcnt", FreqCnt);
    ("cfuture", count_t * 4)
  ].

(** C Name: cpustat.  C Location: photosyst.h.  C Parent: sstat *)
Definition CPUStat : ctype :=
  Structure "CPUStat" [
    ("nrcpu", count_t);
    ("devint", count_t);
    ("csw", count_t);
    ("nprocs", count_t);
    ("lavg1", c_float);
    ("lavg5", c_float);
    ("lavg15", c_float);
    ("cfuture", count_t * 4);

    ("all", PerCPU);
    ("cpu", PerCPU * MAXCPU)
  ].

(** C Name: perdsk.  C Location: photosyst.h.  C Parent: dskstat *)
Definition PerDSK : ctype :=
  Structure "PerDSK" [
    ("name", c_char * MAXDKNAM);
    ("nread", count_t);
    ("nrsect", count_t);
    ("nwrite", count_t);
    ("nwsect", count_t);
    ("io_ms", count_t);
    ("avque", count_t);
    ("cfuture", count_t * 4)
  ].

(** C Name: dskstat.  C Location: photosyst.h.  C Parent: sstat *)
Definition DSKStat : ctype :=
  Structure "DSKStat" [
    ("ndsk", c_int);
    ("nmdd", c_int);
    ("nlvm", c_int);
    ("dsk", PerDSK * MAXDSK);
    ("mdd", PerDSK * MAXMDD);
    ("lvm", PerDSK * MAXLVM)
  ].

(** C Name: perintf.  C Location: photosyst.h.  C Parent: intfstat *)
Definition PerIntf : ctype :=
  Structure "PerIntf" [
    ("name", c_char * 16);

    ("rbyte", count_t);
    ("rpack", count_t);
    ("rerrs", count_t);
    ("rdrop", count_t);
    ("rfifo", count_t);
    ("rframe", count_t);
    ("rcompr", count_t);
    ("rmultic", count_t);
    ("rfuture", count_t * 4);

    ("sbyte", count_t);
    ("spack", count_t);
    ("serrs", count_t);
    ("sdrop", count_t);
    ("sfifo", count_t);
    ("scollis", count_t);
    ("scarrier", count_t);
    ("scompr", count_t);
    ("sfuture", count_t * 4);

    ("type", c_char);
    ("speed", c_long);
    ("speedp", c_long);
    ("duplex", c_char);
    ("cfuture", count_t * 4)
  ].

(** C Name: intfstat.  C Location: photosyst.h.  C Parent: sstat *)
Definition IntfStat : ctype :=
  Structure "IntfStat" [
    ("nrintf", c_int);
    ("intf", PerIntf * MAXINTF)
  ].

(** C Name: pernfsmount.  C Location: photosyst.h.  C Parent: nfsmounts *)
Definition PerNFSMount : ctype :=
  Structure "PerNFSMount" [
    ("name", c_char * 128);
    ("age", count_t);

    ("bytesread", count_t);
    ("byteswrite", count_t);
    ("bytesdread", count_t);
    ("bytesdwrite", count_t);
    ("bytestotread", count_t);
    ("bytestotwrite", count_t);
    ("pagesmread", count_t);
    ("pagesmwrite", count_t);

    ("future", count_t * 8)
  ].

(** C Name: server.  C Location: photoproc.h.  C Parent: nfsstat *)
Definition Server : ctype :=
  Structure "Server" [
    ("netcnt", count_t);
    ("netudpcnt", count_t);
    ("nettcpcnt", count_t);
    ("nettcpcon", count_t);

    ("rpccnt", count_t);
    ("rpcbadfmt", count_t);
    ("rpcbadaut", count_t);
    ("rpcbadcln", count_t);

    ("rpcread", count_t);
    ("rpcwrite", count_t);

    ("rchits", count_t);
    ("rcmiss", count_t);
    ("rcnoca", count_t);

    ("nrbytes", count_t);
    ("nwbytes", count_t);

    ("future", count_t * 8)
  ].

(** C Name: client.  C Location: photoproc.h.  C Parent: nfsstat *)
Definition Client : ctype :=
  Structure "Client" [
    ("rpccnt", count_t);
    ("rpcretrans", count_t);
    ("rpcautrefresh", count_t);

    ("rpcread", count_t);
    ("rpcwrite", count_t);

    ("future", count_t * 8)
  ].

(** C Name: mfsmounts.  C Location: photoproc.h.  C Parent: nfsstat *)
Definition NFSMounts : ctype :=
  Structure "NFSMounts" [
    ("nrmounts", c_int);
    ("pernfsmount", PerNFSMount * MAXNFSMOUNT)
  ].

(** C Name: nfstat.  C Location: photosyst.h.  C Parent: sstat *)
Definition NFSStat : ctype :=
  Structure "NFSStat" [
    ("server", Server);
    ("client", Client);
    ("nfsmounts", NFSMounts)
  ].

(** C Name: percontainer.  C Location: photosyst.h.  C Parent: constat *)
Definition PerContainer : ctype :=
  Structure "PerContainer" [
    ("ctid", c_ulong);
    ("numproc", c_ulong);

    ("system", count_t);
    ("user", count_t);
    ("nice", count_t);
    ("uptime", count_t);

    ("physpages", count_t)
  ].

(** C Name: contstat.  C Location: photosyst.h.  C Parent: sstat *)
Definition ContStat : ctype :=
  Structure "ContStat" [
    ("nrcontainer", c_int);
    ("cont", PerContainer * MAXCONTAINER)
  ].

Definition WWWStat : ctype := atop_126.WWWStat atop_126.

Definition IPv4Stats : ctype := atop_126.IPv4Stats atop_126.

Definition ICMPv4Stats : ctype := atop_126.ICMPv4Stats atop_126.

Definition UDPv4Stats : ctype := atop_126.UDPv4Stats atop_126.

Definition TCPStats : ctype := atop_126.TCPStats atop_126.

Definition IPv6Stats : ctype := atop_126.IPv6Stats atop_126.

Definition ICMPv6Stats : ctype := atop_126.ICMPv6Stats atop_126.

Definition UDPv6Stats : ctype := atop_126.UDPv6Stats atop_126.

Definition NETStat : ctype := atop_126.NETStat atop_126.

(** C Name: sstat.  C Location: photosyst.h *)
Definition SStat : ctype :=
  Structure "SStat" [
    ("cpu", CPUStat);
    ("mem", MemStat);
    ("net", NETStat);
    ("intf", IntfStat);
    ("dsk", DSKStat);
    ("nfs", NFSStat);
    ("cfs", ContStat);

    ("www", WWWStat)
  ].

(** C Name: gen.  C Location: photoproc.h.  C Parent: tstat *)
Definition GEN : ctype :=
  Structure "GEN" [
    ("tgid", c_int);
    ("pid", c_int);
    ("ppid", c_int);
    ("ruid", c_int);
    ("euid", c_int);
    ("suid", c_int);
    ("fsuid", c_int);
    ("rgid", c_int);
    ("egid", c_int);
    ("sgid", c_int);
    ("fsgid", c_int);
    ("nthr", c_int);
    ("name", c_char * (PNAMLEN + 1));
    ("isproc", c_char);
    ("state", c_char);
    ("excode", c_int);
    ("btime", time_t);
    ("elaps", time_t);
    ("cmdline", c_char * (CMDLEN + 1));
    ("nthrslpi", c_int);
    ("nthrslpu", c_int);
    ("nthrrun", c_int);

    ("ctid", c_int);
    ("vpid", c_int);

    ("wasinactive", c_int);

    ("container", c_char * 16)
  ].

Definition CPU : ctype := atop_126.CPU atop_126.

Definition DSK : ctype := atop_126.DSK atop_126.

(** C Name: mem.  C Location: photoproc.h.  C Parent: tstat *)
Definition MEM : ctype :=
  Structure "MEM" [
    ("minflt", count_t);
    ("majflt", count_t);
    ("vexec", count_t);
    ("vmem", count_t);
    ("rmem", count_t);
    ("pmem", count_t);
    ("vgrow", count_t);
    ("rgrow", count_t);
    ("vdata", count_t);
    ("vstack", count_t);
    ("vlibs", count_t);
    ("vswap", count_t);
    ("cfuture", count_t * 4)
  ].

(** C Name: net.  C Location: photoproc.h.  C Parent: tstat *)
Definition NET : ctype :=
  Structure "NET" [
    ("tcpsnd", count_t);
    ("tcpssz", count_t);
    ("tcprcv", count_t);
    ("tcprsz", count_t);
    ("udpsnd", count_t);
    ("udpssz", count_t);
    ("udprcv", count_t);
    ("udprsz", count_t);
    ("avail1", count_t);
    ("avail2", count_t);
    ("cfuture", count_t * 4)
  ].

(** C Name: tstat.  C Location: photoproc.h *)
Definition TStat : ctype :=
  Structure "TStat" [
    ("gen", GEN);
    ("cpu", CPU);
    ("dsk", DSK);
    ("mem", MEM);
    ("net", NET)
  ].

(** The classes the module declares itself, in source order. *)
Definition declared : list ctype :=
  [Header; Record; MemStat; PerCPU; CPUStat; PerDSK; DSKStat; PerIntf;
   IntfStat; PerNFSMount; Server; Client; NFSMounts; NFSStat; PerContainer;
   ContStat; SStat; GEN; MEM; NET; TStat].

End Layouts.

(** ** Instances and decoding

    What [Structure.from_buffer_copy] builds from the bytes of a log: an
    integer field reads as a Python [int], a [c_char] as one byte, an array
    as a sequence of its full declared length, a nested structure as an
    object with the declared fields.  A [c_float] is kept as its raw 32-bit
    pattern.  Multi-byte scalars are little-endian, the order of every
    platform ATOP writes raw logs on. *)

#[local] Unset Elimination Schemes.

Inductive cvalue : Type :=
| V_int (z : Z)
| V_char (b : Byte.byte)
| V_float (bits : N)
| V_array (items : list cvalue)
| V_struct (name : string) (fields : list (string * cvalue)).

#[local] Set Elimination Schemes.

(** A reader consumes a prefix of the buffer or fails. *)
Definition reader (A : Type) : Type :=
  list Byte.byte -> option (A * list Byte.byte).

Fixpoint take (n : nat) (bs : list Byte.byte)
  : option (list Byte.byte * list Byte.byte) :=
  match n with
  | O => Some ([], bs)
  | S n' =>
      match bs with
      | [] => None
      | b :: rest =>
          match take n' rest with
          | Some (front, back) => Some (b :: front, back)
          | None => None
          end
      end
  end.

Definition little_endian (raw : list Byte.byte) : N :=
  fold_right (fun b acc => Byte.to_N b + 256 * acc) 0 raw.

(** Two's complement reading of an unsigned [bits]-bit number. *)
Definition signed (bits : N) (n : N) : Z :=
  if n <? 2 ^ (bits - 1) then Z.of_N n else (Z.of_N n - 2 ^ Z.of_N bits)%Z.

Definition scalar_value (t : ctype) (raw : list Byte.byte) : cvalue :=
  match t with
  | c_char => V_char (hd Byte.x00 raw)
  | c_float => V_float (little_endian raw)
  | c_ushort | c_uint | c_ulong => V_int (Z.of_N (little_endian raw))
  | _ => V_int (signed (8 * N.of_nat (List.length raw)) (little_endian raw))
  end.

Definition read_scalar (abi : ABI) (t : ctype) : reader cvalue :=
  fun bs =>
    match take (N.to_nat (sizeof abi t)) bs with
    | Some (raw, rest) => Some (scalar_value t raw, rest)
    | None => None
    end.

(** [k] consecutive elements. *)
Fixpoint read_many (d : reader cvalue) (k : nat) : reader (list cvalue) :=
  fun bs =>
    match k with
    | O => Some ([], bs)
    | S k' =>
        match d bs with
        | Some (v, rest) =>
            match read_many d k' rest with
            | Some (vs, rest') => Some (v :: vs, rest')
            | None => None
            end
        | None => None
        end
    end.

(** The fields of a structure, each given by its name, its reader and its
    size and alignment; [off] is the offset reached inside the structure.
    The padding in front of a field is skipped. *)
Fixpoint read_fields (fs : list (string * reader cvalue * (N * N))) (off : N)
  : reader (list (string * cvalue)) :=
  fun bs =>
    match fs with
    | [] => Some ([], bs)
    | (name, d, (s, a)) :: fs' =>
        match take (N.to_nat (round_up off a - off)) bs with
        | Some (_, bs1) =>
            match d bs1 with
            | Some (v, bs2) =>
                match read_fields fs' (round_up off a + s) bs2 with
                | Some (vs, bs3) => Some ((name, v) :: vs, bs3)
                | None => None
                end
            | None => None
            end
        | None => None
        end
    end.

(** Decoding one instance of [t] from the front of a buffer: exactly
    [sizeof t] bytes are consumed, or the buffer is too short. *)
Fixpoint decode (abi : ABI) (t : ctype) : reader cvalue :=
  match t with
  | Array e n =>
      fun bs =>
        match read_many (decode abi e) (N.to_nat n) bs with
        | Some (vs, rest) => Some (V_array vs, rest)
        | None => None
        end
  | Structure name fs =>
      fun bs =>
        let sa := map (fun f => size_align abi (snd f)) fs in
        match read_fields
                (map (fun f => (fst f, decode abi (snd f), size_align abi (snd f))) fs)
                0 bs with
        | Some (vs, rest) =>
            match take (N.to_nat (round_up (fields_end 0 sa) (fields_align sa)
                                  - fields_end 0 sa)) rest with
            | Some (_, rest') => Some (V_struct name vs, rest')
            | None => None
            end
        | None => None
        end
  | _ => read_scalar abi t
  end.

(** Attribute access on decoded objects: [v.f], [v.f.g], [len(v)]. *)
Definition vfield (f : string) (v : cvalue) : option cvalue :=
  match v with
  | V_struct _ fs => assoc f fs
  | _ => None
  end.

Fixpoint vpath (p : list string) (v : cvalue) : option cvalue :=
  match p with
  | [] => Some v
  | f :: p' =>
      match vfield f v with
      | Some v' => vpath p' v'
      | None => None
      end
  end.

Definition vlen (v : cvalue) : option N :=
  match v with
  | V_array items => Some (N.of_nat (List.length items))
  | _ => None
  end.

(** The same path followed in a layout: the type of [t.f.g]. *)
Fixpoint tpath (p : list string) (t : ctype) : option ctype :=
  match p with
  | [] => Some t
  | f :: p' =>
      match field_type t f with
      | Some t' => tpath p' t'
      | None => None
      end
  end.

(** [v] is an instance of [t]: arrays have their declared length, objects
    have the declared fields in the declared order. *)
#[local] Unset Elimination Schemes.

Inductive instance_of : ctype -> cvalue -> Prop :=
| inst_char b : instance_of c_char (V_char b)
| inst_ushort z : instance_of c_ushort (V_int z)
| inst_int z : instance_of c_int (V_int z)
| inst_uint z : instance_of c_uint (V_int z)
| inst_long z : instance_of c_long (V_int z)
| inst_ulong z : instance_of c_ulong (V_int z)
| inst_longlong z : instance_of c_longlong (V_int z)
| inst_float bits : instance_of c_float (V_float bits)
| inst_array e n vs :
    List.length vs = N.to_nat n ->
    Forall (instance_of e) vs ->
    instance_of (Array e n) (V_array vs)
| inst_struct name fs vs :
    Forall2 (fun f fv => fst f = fst fv /\ instance_of (snd f) (snd fv)) fs vs ->
    instance_of (Structure name fs) (V_struct name vs).

#[local] Set Elimination Schemes.

(** ** Header objects and their methods *)

(** An instance of class [Header]: one attribute per declared field. *)
Record HeaderObject : Type := mkHeader {
  magic : N;

  aversion : N;
  future1 : N;
  future2 : N;
  rawheadlen : N;
  rawreclen : N;
  hertz : N;
  sfuture : list N;
  sstatlen : N;
  tstatlen : N;
  utsname : cvalue;
  cfuture : list Byte.byte;

  pagesize : N;
  supportflags : Z;
  osrel : Z;
  osvers : Z;
  ossub : Z;
  ifuture : list Z
}.

Inductive exception : Type :=
| ValueError (message : string).

Inductive outcome (A : Type) : Type :=
| Returned (a : A)
| Raised (e : exception).

Arguments Returned {A} a.
Arguments Raised {A} e.

(** A method body: it starts from the object [self] and ends, by a return
    or by an exception, with the object as the body left it. *)
Definition method (A : Type) : Type :=
  HeaderObject -> outcome A * HeaderObject.

Definition ret {A : Type} (a : A) : method A :=
  fun self => (Returned a, self).

Definition raise {A : Type} (e : exception) : method A :=
  fun self => (Raised e, self).

Definition bind {A B : Type} (c : method A) (k : A -> method B) : method B :=
  fun self =>
    match c self with
    | (Returned a, self') => k a self'
    | (Raised e, self') => (Raised e, self')
    end.

(** [self.f] *)
Definition attr {A : Type} (f : HeaderObject -> A) : method A :=
  fun self => (Returned (f self), self).

Notation "x <- c ;; k" := (bind c (fun x => k))
  (at level 61, c at next level, right associativity).

Definition raises {A : Type} (r : outcome A * HeaderObject) : bool :=
  match fst r with
  | Raised _ => true
  | Returned _ => false
  end.

(** *** Python built-ins used by the methods *)

(** [all(xs)] on a list of booleans. *)
Definition all (xs : list bool) : bool := forallb (fun b => b) xs.

(** [repr] of a boolean and of a list of booleans, as an f-string
    interpolates them. *)
Definition repr_bool (b : bool) : string :=
  if b then "True" else "False".

Definition repr_list (xs : list bool) : string :=
  "[" ++ String.concat ", " (map repr_bool xs) ++ "]".

(** [str] of a non-negative integer. *)
Definition str (n : N) : string := NilZero.string_of_uint (N.to_uint n).

(** Splitting a literal at its first dot. *)
Fixpoint split_dot (s : string) : option (string * string) :=
  match s with
  | EmptyString => None
  | String c rest =>
      if Ascii.eqb c "."%char then Some (EmptyString, rest)
      else match split_dot rest with
           | Some (i, f) => Some (String c i, f)
           | None => None
           end
  end.

(** The number a literal [digits.digits] denotes.  Python's [float]
    returns the binary64 number nearest to it; the model keeps the exact
    rational, of which that float is a function.  Literals of another
    shape are not produced by this module and are rejected here. *)
Definition literal_value (s : string) : option Q :=
  match split_dot s with
  | Some (i, f) =>
      match NilZero.uint_of_string i, NilZero.uint_of_string f with
      | Some whole, Some frac =>
          Some (inject_Z (Z.of_N (N.of_uint whole))
                + inject_Z (Z.of_N (N.of_uint frac))
                  / inject_Z (10 ^ Z.of_nat (String.length f)))%Q
      | _, _ => None
      end
  | None => None
  end.

Definition float (s : string) : method Q :=
  match literal_value s with
  | Some q => ret q
  | None => raise (ValueError ("could not convert string to float: '" ++ s ++ "'"))
  end.

(** *** The methods *)

Section Methods.

Variable abi : ABI.
Variable atop_126 : atop_126.layouts.

(** The four comparisons of [check_compatibility], in source order, each
    with the name of the header field it reads. *)
Definition compared_fields : list string :=
  ["sstatlen"; "tstatlen"; "rawheadlen"; "rawreclen"].

(** Verify if the loaded values are compatible with this header version.
    Raises: ValueError if not compatible. *)
Definition check_compatibility : method unit :=
  sstatlen_ <- attr sstatlen ;;
  tstatlen_ <- attr tstatlen ;;
  rawheadlen_ <- attr rawheadlen ;;
  rawreclen_ <- attr rawreclen ;;
  let compatible := [
    sstatlen_ =? sizeof abi (SStat atop_126);
    tstatlen_ =? sizeof abi (TStat atop_126);
    rawheadlen_ =? sizeof abi (Header atop_126);
    rawreclen_ =? sizeof abi Record
  ] in
  if negb (all compatible) then
    raise (ValueError
             ("File has incompatible atop format. Struct length evaluations: "
              ++ repr_list compatible))
  else ret tt.

End Methods.

(** Convert the raw version into a semantic version.
    Returns: the final major.minor version from the header aversion. *)
Definition get_version : method Q :=
  major <- (aversion_ <- attr aversion ;;
            ret (N.land (N.shiftr aversion_ 8) 0x7f)) ;;
  minor <- (aversion_ <- attr aversion ;;
            ret (N.land aversion_ 0xff)) ;;
  version <- float (str major ++ "." ++ str minor) ;;
  ret version.

(** ** What the fields of [Record] hold

    The class docstring of [Record] describes every field; the table keeps
    each description as written, next to the attribute it stands for. *)

Inductive blob : Type := sstat_blob | tstat_blob.

Inductive counted : Type := tasks | processes | threads.

Inductive attribute : Type :=
| sample_time
| flag_bits
| compressed_length (b : blob)
| uncompressed_length (b : blob)
| interval_duration
| count_of (c : counted)
| future_use.

Definition Record_doc : list (string * string * attribute) := [
  ("curtime", "Current time (epoch).", sample_time);
  ("flags", "Various flags.", flag_bits);
  ("sfuture", "Future use.", future_use);
  ("scomplen", "Length of compressed sstat.", compressed_length sstat_blob);
  ("pcomplen", "Length of compressed tstats.", compressed_length tstat_blob);
  ("interval", "Interval (number of seconds).", interval_duration);
  ("ndeviat", "Number of tasks in list.", count_of tasks);
  ("nactproc", "Number of processes in list.", count_of processes);
  ("ntask", "Total number of tasks.", count_of tasks);
  ("totproc", "Total number of processes.", count_of processes);
  ("totrun", "Number of running  threads.", count_of threads);
  ("totslpi", "Number of sleeping threads(S).", count_of threads);
  ("totslpu", "Number of sleeping threads(D).", count_of threads);
  ("totzomb", "Number of zombie processes.", count_of processes);
  ("nexit", "Number of exited processes.", count_of processes);
  ("noverflow", "Number of overflow processes.", count_of processes);
  ("ifuture", "Future use.", future_use)
].

Definition blob_eqb (a b : blob) : bool :=
  match a, b with
  | sstat_blob, sstat_blob | tstat_blob, tstat_blob => true
  | _, _ => false
  end.

Definition counted_eqb (a b : counted) : bool :=
  match a, b with
  | tasks, tasks | processes, processes | threads, threads => true
  | _, _ => false
  end.

Definition attribute_eqb (a b : attribute) : bool :=
  match a, b with
  | sample_time, sample_time => true
  | flag_bits, flag_bits => true
  | compressed_length x, compressed_length y => blob_eqb x y
  | uncompressed_length x, uncompressed_length y => blob_eqb x y
  | interval_duration, interval_duration => true
  | count_of x, count_of y => counted_eqb x y
  | future_use, future_use => true
  | _, _ => false
  end.

(** The declared fields of [Record] that hold attribute [a]. *)
Definition fields_holding (a : attribute) : list string :=
  filter (fun f =>
            existsb (fun d => String.eqb (fst (fst d)) f && attribute_eqb (snd d) a)
                    Record_doc)
         (field_names Record).

(** ** Concrete inputs *)

(** Modelled from the spec: the declarations of [atop_126] are missing from
    the sources.  This instance gives [UTSName] the six fixed-width identity
    strings the spec lists (OS name, hostname, release, version, machine,
    domain) and the other layouts a few 64-bit counters each.  It serves to
    evaluate statements at a concrete module; every theorem is proved for
    all modules. *)
Definition atop_126_sample : atop_126.layouts :=
  let counters (name : string) (fields : list string) :=
    Structure name (map (fun f => (f, count_t)) fields) in
  let ipv4 := counters "IPv4Stats" ["InReceives"; "OutRequests"] in
  let icmpv4 := counters "ICMPv4Stats" ["InMsgs"; "OutMsgs"] in
  let udpv4 := counters "UDPv4Stats" ["InDatagrams"; "OutDatagrams"] in
  let tcp := counters "TCPStats" ["InSegs"; "OutSegs"] in
  let ipv6 := counters "IPv6Stats" ["Ip6InReceives"; "Ip6OutRequests"] in
  let icmpv6 := counters "ICMPv6Stats" ["Icmp6InMsgs"; "Icmp6OutMsgs"] in
  let udpv6 := counters "UDPv6Stats" ["Udp6InDatagrams"; "Udp6OutDatagrams"] in
  {| atop_126.UTSName :=
       Structure "UTSName" [
         ("sysname", (c_char * 65)%ctype);
         ("nodename", (c_char * 65)%ctype);
         ("release", (c_char * 65)%ctype);
         ("version", (c_char * 65)%ctype);
         ("machine", (c_char * 65)%ctype);
         ("domain", (c_char * 65)%ctype)
       ];
     atop_126.FreqCnt := counters "FreqCnt" ["maxfreq"; "cnt"; "ticks"];
     atop_126.WWWStat := counters "WWWStat" ["accesses"; "totkbytes"; "uptime"];
     atop_126.IPv4Stats := ipv4;
     atop_126.ICMPv4Stats := icmpv4;
     atop_126.UDPv4Stats := udpv4;
     atop_126.TCPStats := tcp;
     atop_126.IPv6Stats := ipv6;
     atop_126.ICMPv6Stats := icmpv6;
     atop_126.UDPv6Stats := udpv6;
     atop_126.NETStat :=
       Structure "NETStat" [
         ("ipv4", ipv4); ("icmpv4", icmpv4); ("udpv4", udpv4);
         ("ipv6", ipv6); ("icmpv6", icmpv6); ("udpv6", udpv6);
         ("tcp", tcp)
       ];
     atop_126.CPU := counters "CPU" ["utime"; "stime"];
     atop_126.DSK := counters "DSK" ["rio"; "rsz"; "wio"; "wsz"]
  |}.

(** A header whose attributes are all zero. *)
Definition zero_header : HeaderObject :=
  {| magic := 0; aversion := 0; future1 := 0; future2 := 0;
     rawheadlen := 0; rawreclen := 0; hertz := 0; sfuture := repeat 0 6;
     sstatlen := 0; tstatlen := 0; utsname := V_struct "UTSName" [];
     cfuture := repeat Byte.x00 8; pagesize := 0; supportflags := 0%Z;
     osrel := 0%Z; osvers := 0%Z; ossub := 0%Z; ifuture := repeat 0%Z 6 |}.

(** A header whose packed version is [raw]. *)
Definition header_with_version (raw : N) : HeaderObject :=
  {| magic := 0xfeedbeef; aversion := raw; future1 := 0; future2 := 0;
     rawheadlen := 0; rawreclen := 0; hertz := 100; sfuture := repeat 0 6;
     sstatlen := 0; tstatlen := 0; utsname := V_struct "UTSName" [];
     cfuture := repeat Byte.x00 8; pagesize := 4096; supportflags := 0%Z;
     osrel := 0%Z; osvers := 0%Z; ossub := 0%Z; ifuture := repeat 0%Z 6 |}.

(** The header of a log written by atop 2.3 on [abi]: magic 0xfeedbeef,
    version 2.3 with the most significant bit set, and the four lengths
    this module computes. *)
Definition header_2_3 (abi : ABI) (atop_126 : atop_126.layouts) : HeaderObject :=
  {| magic := 0xfeedbeef; aversion := 0x8203; future1 := 0; future2 := 0;
     rawheadlen := sizeof abi (Header atop_126);
     rawreclen := sizeof abi Record;
     hertz := 100; sfuture := repeat 0 6;
     sstatlen := sizeof abi (SStat atop_126);
     tstatlen := sizeof abi (TStat atop_126);
     utsname := V_struct "UTSName" [];
     cfuture := repeat Byte.x00 8; pagesize := 4096; supportflags := 0%Z;
     osrel := 4%Z; osvers := 15%Z; ossub := 0%Z; ifuture := repeat 0%Z 6 |}.

(** The same header with [sstatlen] one byte larger. *)
Definition forged_header (abi : ABI) (atop_126 : atop_126.layouts) : HeaderObject :=
  let h := header_2_3 abi atop_126 in
  {| magic := magic h; aversion := aversion h; future1 := future1 h;
     future2 := future2 h; rawheadlen := rawheadlen h;
     rawreclen := rawreclen h; hertz := hertz h; sfuture := sfuture h;
     sstatlen := sstatlen h + 1; tstatlen := tstatlen h;
     utsname := utsname h; cfuture := cfuture h; pagesize := pagesize h;
     supportflags := supportflags h; osrel := osrel h; osvers := osvers h;
     ossub := ossub h; ifuture := ifuture h |}.

(** A header that agrees with [header_2_3] on the four length fields and
    differs from it on other fields. *)
Definition relabelled_header (abi : ABI) (atop_126 : atop_126.layouts) : HeaderObject :=
  let h := header_2_3 abi atop_126 in
  {| magic := 0; aversion := 0x011a; future1 := 7; future2 := 9;
     rawheadlen := rawheadlen h; rawreclen := rawreclen h; hertz := 250;
     sfuture := repeat 1 6; sstatlen := sstatlen h; tstatlen := tstatlen h;
     utsname := V_struct "UTSName" [("sysname", V_array [])];
     cfuture := repeat Byte.xff 8; pagesize := 65536; supportflags := (-1)%Z;
     osrel := 2%Z; osvers := 6%Z; ossub := 32%Z; ifuture := repeat 5%Z 6 |}.

(** ** Notions the statements below are phrased with *)

(** Bytes of alignment padding in a run of fields laid out from [off]. *)
Fixpoint fields_padding (off : N) (sa : list (N * N)) : N :=
  match sa with
  | [] => 0
  | (s, a) :: rest =>
      (round_up off a - off) + fields_padding (round_up off a + s) rest
  end.

(** Bytes of padding ctypes puts into a structure: in front of fields and
    after the last one. *)
Definition padding (abi : ABI) (t : ctype) : N :=
  let sa := map (size_align abi) (field_types t) in
  fields_padding 0 sa + (round_up (fields_end 0 sa) (fields_align sa) - fields_end 0 sa).

(** The length of the sequence found at [v.p], and the declared length of
    the array type at [t.p]. *)
Definition len_at (p : list string) (v : cvalue) : option N :=
  match vpath p v with
  | Some a => vlen a
  | None => None
  end.

Definition declared_length (p : list string) (t : ctype) : option N :=
  match tpath p t with
  | Some (Array _ n) => Some n
  | _ => None
  end.

(** The names the module binds to classes of [atop_126], each with the
    class it is bound to. *)
Definition reused (atop_126 : atop_126.layouts) : list (string * ctype * ctype) :=
  [("UTSName", UTSName atop_126, atop_126.UTSName atop_126);
   ("FreqCnt", FreqCnt atop_126, atop_126.FreqCnt atop_126);
   ("WWWStat", WWWStat atop_126, atop_126.WWWStat atop_126);
   ("IPv4Stats", IPv4Stats atop_126, atop_126.IPv4Stats atop_126);
   ("ICMPv4Stats", ICMPv4Stats atop_126, atop_126.ICMPv4Stats atop_126);
   ("UDPv4Stats", UDPv4Stats atop_126, atop_126.UDPv4Stats atop_126);
   ("TCPStats", TCPStats atop_126, atop_126.TCPStats atop_126);
   ("IPv6Stats", IPv6Stats atop_126, atop_126.IPv6Stats atop_126);
   ("ICMPv6Stats", ICMPv6Stats atop_126, atop_126.ICMPv6Stats atop_126);
   ("UDPv6Stats", UDPv6Stats atop_126, atop_126.UDPv6Stats atop_126);
   ("NETStat", NETStat atop_126, atop_126.NETStat atop_126);
   ("CPU", CPU atop_126, atop_126.CPU atop_126);
   ("DSK", DSK atop_126, atop_126.DSK atop_126)].

(** Reading the message of the [ValueError] back: the list of booleans
    after the fixed text, and from it the names of the header fields whose
    comparison came out [False]. *)
Fixpoint strip_prefix (p s : string) : option string :=
  match p with
  | EmptyString => Some s
  | String c p' =>
      match s with
      | String d s' => if Ascii.eqb c d then strip_prefix p' s' else None
      | EmptyString => None
      end
  end.

Fixpoint parse_bools (fuel : nat) (s : string) : option (list bool) :=
  match fuel with
  | O => None
  | S fuel' =>
      let item :=
        match strip_prefix "True" s with
        | Some rest => Some (true, rest)
        | None =>
            match strip_prefix "False" s with
            | Some rest => Some (false, rest)
            | None => None
            end
        end in
      match item with
      | Some (b, rest) =>
          if String.eqb rest "]" then Some [b]
          else match strip_prefix ", " rest with
               | Some rest' =>
                   match parse_bools fuel' rest' with
                   | Some bs => Some (b :: bs)
                   | None => None
                   end
               | None => None
               end
      | None => None
      end
  end.

Definition evaluations (e : exception) : option (list bool) :=
  match e with
  | ValueError msg =>
      match strip_prefix
              "File has incompatible atop format. Struct length evaluations: ["
              msg with
      | Some rest => parse_bools (String.length rest) rest
      | None => None
      end
  end.

Definition mismatched_fields (e : exception) : option (list string) :=
  match evaluations e with
  | Some bs =>
      Some (map fst (filter (fun x => negb (snd x)) (combine compared_fields bs)))
  | None => None
  end.

(** The two components [get_version] takes from the packed version. *)
Definition version_major (raw : N) : N := N.land (N.shiftr raw 8) 0x7f.
Definition version_minor (raw : N) : N := N.land raw 0xff.

(** The version as "major plus minor hundredths". *)
Definition major_plus_hundredths (raw : N) : Q :=
  (inject_Z (Z.of_N (version_major raw))
   + inject_Z (Z.of_N (version_minor raw)) / inject_Z 100)%Q.

(** The version as the decimal number written [major.minor]: the minor
    number stands behind the dot with as many digits as it has. *)
Definition major_dot_minor (raw : N) : Q :=
  (inject_Z (Z.of_N (version_major raw))
   + inject_Z (Z.of_N (version_minor raw))
     / inject_Z (10 ^ Z.of_nat (String.length (str (version_minor raw)))))%Q.

(** The packed version field: a flag in the most significant bit, the
    major number in the seven bits below it, the minor number in the low
    byte. *)
Definition packed_version (msb major minor : N) : N :=
  N.lor (N.shiftl msb 15) (N.lor (N.shiftl major 8) minor).

(** ** Induction over type descriptors *)

Section ctype_induction.

Variable P : ctype -> Prop.
Hypothesis P_char : P c_char.
Hypothesis P_ushort : P c_ushort.
Hypothesis P_int : P c_int.
Hypothesis P_uint : P c_uint.
Hypothesis P_long : P c_long.
Hypothesis P_ulong : P c_ulong.
Hypothesis P_longlong : P c_longlong.
Hypothesis P_float : P c_float.
Hypothesis P_array : forall e n, P e -> P (Array e n).
Hypothesis P_struct :
  forall name fs, Forall (fun f => P (snd f)) fs -> P (Structure name fs).

Fixpoint ctype_ind (t : ctype) : P t :=
  match t with
  | c_char => P_char
  | c_ushort => P_ushort
  | c_int => P_int
  | c_uint => P_uint
  | c_long => P_long
  | c_ulong => P_ulong
  | c_longlong => P_longlong
  | c_float => P_float
  | Array e n => P_array e n (ctype_ind e)
  | Structure name fs =>
      P_struct name fs
        ((fix all (l : list (string * ctype)) : Forall (fun f => P (snd f)) l :=
            match l with
            | [] => Forall_nil _
            | f :: l' => Forall_cons f (ctype_ind (snd f)) (all l')
            end) fs)
  end.

End ctype_induction.

(** ** What a reader guarantees

    [reads d n P]: on every buffer, [d] either fails because fewer than [n]
    bytes are left, or consumes [n] bytes and yields a value with [P]. *)
Definition reads {A : Type} (d : reader A) (n : nat) (P : A -> Prop) : Prop :=
  forall bs,
    match d bs with
    | Some (v, rest) => List.length bs = (n + List.length rest)%nat /\ P v
    | None => (List.length bs < n)%nat
    end.

(** ** The reading of [Record] and of [SStat] in the specification *)

(** The attributes the specification lists for [Record]. *)
Definition spec_Record_attributes : list attribute :=
  [sample_time; flag_bits;
   compressed_length sstat_blob; compressed_length tstat_blob;
   uncompressed_length sstat_blob; uncompressed_length tstat_blob;
   count_of tasks; count_of processes; count_of threads;
   interval_duration].

(** The attributes its fields do hold. *)
Definition Record_attributes : list attribute :=
  [sample_time; flag_bits;
   compressed_length sstat_blob; compressed_length tstat_blob;
   count_of tasks; count_of processes; count_of threads;
   interval_duration].

(** The order of sub-records the specification lists for [SStat]. *)
Definition spec_SStat_order (atop_126 : atop_126.layouts) : list ctype :=
  [CPUStat atop_126; MemStat; DSKStat; IntfStat; NFSStat; ContStat;
   NETStat atop_126; WWWStat atop_126].

(** The numbers below [n]. *)
Definition below (n : nat) : list N := map N.of_nat (seq 0 n).


(** ** Further notions for statements about the module *)

(** An ABI whose [long] has a width that is a multiple of its alignment,
    and whose alignments divide the widths they apply to. *)
Definition sane (abi : ABI) : Prop :=
  long_size abi <> 0
  /\ long_align abi <> 0
  /\ long_size abi mod long_align abi = 0
  /\ longlong_align abi <> 0
  /\ 8 mod longlong_align abi = 0.

(** The byte span [(offset, width)] of every field of a structure. *)
Definition spans (abi : ABI) (t : ctype) : list (N * N) :=
  combine (fields_offsets 0 (map (size_align abi) (field_types t)))
          (map (sizeof abi) (field_types t)).

(** Spans that follow one another between [lo] and [hi] without
    overlapping. *)
Fixpoint in_order (lo : N) (sp : list (N * N)) (hi : N) : Prop :=
  match sp with
  | [] => lo <= hi
  | (o, w) :: rest => lo <= o /\ in_order (o + w) rest hi
  end.

(** No name occurs twice. *)
Fixpoint distinct (l : list string) : bool :=
  match l with
  | [] => true
  | x :: rest => negb (existsb (String.eqb x) rest) && distinct rest
  end.

(** The values of an integer type: [lo <= z < hi]. *)
Definition int_range (abi : ABI) (t : ctype) : option (Z * Z) :=
  match t with
  | c_ushort => Some (0, 2 ^ 16)%Z
  | c_int => Some (- 2 ^ 31, 2 ^ 31)%Z
  | c_uint => Some (0, 2 ^ 32)%Z
  | c_long =>
      Some (- 2 ^ (8 * Z.of_N (long_size abi) - 1),
            2 ^ (8 * Z.of_N (long_size abi) - 1))%Z
  | c_ulong => Some (0, 2 ^ (8 * Z.of_N (long_size abi)))%Z
  | c_longlong => Some (- 2 ^ 63, 2 ^ 63)%Z
  | _ => None
  end.

(** Every integer inside [v] is a value of the C type it was read as. *)
#[local] Unset Elimination Schemes.

Inductive ranged (abi : ABI) : ctype -> cvalue -> Prop :=
| ranged_char b : ranged abi c_char (V_char b)
| ranged_float bits : bits < 2 ^ 32 -> ranged abi c_float (V_float bits)
| ranged_int t z lo hi :
    int_range abi t = Some (lo, hi) ->
    (lo <= z < hi)%Z ->
    ranged abi t (V_int z)
| ranged_array e n vs :
    Forall (ranged abi e) vs ->
    ranged abi (Array e n) (V_array vs)
| ranged_struct name fs vs :
    Forall2 (fun f fv => fst f = fst fv /\ ranged abi (snd f) (snd fv)) fs vs ->
    ranged abi (Structure name fs) (V_struct name vs).

#[local] Set Elimination Schemes.

(** The two calls one after the other, in either order. *)
Definition check_then_version (abi : ABI) (atop_126 : atop_126.layouts)
  : method Q :=
  _ <- check_compatibility abi atop_126 ;;
  get_version.

Definition version_then_check (abi : ABI) (atop_126 : atop_126.layouts)
  : method Q :=
  version <- get_version ;;
  _ <- check_compatibility abi atop_126 ;;
  ret version.

(** [takes d n]: whenever [d] succeeds it has consumed exactly the first
    [n] bytes of the buffer, and what follows them does not matter. *)
Definition takes {A : Type} (d : reader A) (n : nat) : Prop :=
  forall bs v rest,
    d bs = Some (v, rest) ->
    exists front,
      bs = (front ++ rest)%list
      /\ List.length front = n
      /\ forall other, d (front ++ other)%list = Some (v, other).

(** The digits the minor number puts behind the dot, as a number. *)
Definition fraction (minor : N) : Q :=
  (inject_Z (Z.of_N minor)
   / inject_Z (10 ^ Z.of_nat (String.length (str minor))))%Q.

(** Minor numbers that are equal or differ by a factor of 10 or 100. *)
Definition same_fraction (m1 m2 : N) : Prop :=
  m1 = m2 \/ m1 = 10 * m2 \/ m2 = 10 * m1 \/ m1 = 100 * m2 \/ m2 = 100 * m1.

Definition same_fractionb (m1 m2 : N) : bool :=
  (m1 =? m2) || (m1 =? 10 * m2) || (m2 =? 10 * m1)
  || (m1 =? 100 * m2) || (m2 =? 100 * m1).

(** * Theorems *)

(** ** Layout arithmetic *)

Lemma round_up_ge (off a : N) : off <= round_up off a.
Proof.
  unfold round_up. destruct (N.eqb_spec a 0) as [->|Ha]; [lia|].
  pose proof (N.div_mod (off + a - 1) a Ha) as Hdm.
  pose proof (N.mod_lt (off + a - 1) a Ha) as Hlt.
  nia.
Qed.

Lemma round_up_multiple (off a : N) : a <> 0 -> (round_up off a) mod a = 0.
Proof.
  intros Ha. unfold round_up.
  destruct (N.eqb_spec a 0) as [->|_]; [congruence|].
  apply N.Div0.mod_mul.
Qed.

(** Natural alignment: every field starts at a multiple of its
    alignment. *)
Lemma fields_offsets_aligned (sa : list (N * N)) :
  forall off,
    Forall2 (fun o x => snd x <> 0 -> o mod snd x = 0)
            (fields_offsets off sa) sa.
Proof.
  induction sa as [|[s a] rest IH]; intros off; simpl; constructor.
  - apply round_up_multiple.
  - apply IH.
Qed.

Lemma fields_end_ge (sa : list (N * N)) :
  forall off, off <= fields_end off sa.
Proof.
  induction sa as [|[s a] rest IH]; intros off; simpl; [lia|].
  pose proof (round_up_ge off a). specialize (IH (round_up off a + s)). lia.
Qed.

(** The end of a run of fields is its start, plus the widths, plus the
    padding in front of the fields. *)
Lemma fields_end_widths_padding (sa : list (N * N)) :
  forall off,
    fields_end off sa
    = off + fold_right N.add 0 (map fst sa) + fields_padding off sa.
Proof.
  induction sa as [|[s a] rest IH]; intros off; simpl; [lia|].
  rewrite IH. pose proof (round_up_ge off a). lia.
Qed.

Lemma size_align_struct abi name fs :
  size_align abi (Structure name fs)
  = (let sa := map (size_align abi) (map snd fs) in
     (round_up (fields_end 0 sa) (fields_align sa), fields_align sa)).
Proof. simpl. rewrite map_map. reflexivity. Qed.

(** [ctypes.sizeof] of a structure: the widths of its fields plus the
    padding. *)
Lemma sizeof_widths_padding abi name fs :
  sizeof abi (Structure name fs)
  = sum_of_widths abi (Structure name fs) + padding abi (Structure name fs).
Proof.
  unfold sizeof, sum_of_widths, padding, field_types.
  rewrite size_align_struct. cbn [fst _fields_].
  set (sa := map (size_align abi) (map snd fs)).
  pose proof (round_up_ge (fields_end 0 sa) (fields_align sa)) as Hge.
  pose proof (fields_end_widths_padding sa 0) as He.
  assert (Hw : fold_right N.add 0 (map fst sa)
               = fold_right N.add 0 (map (fun t => fst (size_align abi t)) (map snd fs))).
  { unfold sa. rewrite map_map. reflexivity. }
  change (map (sizeof abi) (map snd fs))
    with (map (fun t => fst (size_align abi t)) (map snd fs)).
  rewrite <- Hw. lia.
Qed.

(** ** The decoder *)

Lemma take_reads (n : nat) :
  reads (take n) n (fun front => List.length front = n).
Proof.
  induction n as [|n IH]; intros bs; simpl.
  - split; reflexivity.
  - destruct bs as [|b rest]; simpl; [lia|].
    specialize (IH rest). destruct (take n rest) as [[front back]|]; simpl.
    + destruct IH as [Hlen Hfront]. split; [lia | now rewrite Hfront].
    + lia.
Qed.

Lemma read_scalar_reads abi t (P : cvalue -> Prop) :
  (forall raw, P (scalar_value t raw)) ->
  reads (read_scalar abi t) (N.to_nat (sizeof abi t)) P.
Proof.
  intros HP bs. unfold read_scalar.
  pose proof (take_reads (N.to_nat (sizeof abi t)) bs) as H.
  destruct (take (N.to_nat (sizeof abi t)) bs) as [[raw rest]|]; [|exact H].
  split; [apply H | apply HP].
Qed.

Lemma read_many_reads (d : reader cvalue) (n : nat) (P : cvalue -> Prop) :
  reads d n P ->
  forall k,
    reads (read_many d k) (k * n)
          (fun vs => List.length vs = k /\ Forall P vs).
Proof.
  intros Hd k. induction k as [|k IH]; intros bs; simpl.
  - repeat split; constructor.
  - specialize (Hd bs). destruct (d bs) as [[v rest]|]; [|lia].
    destruct Hd as [Hlen Hv]. specialize (IH rest).
    destruct (read_many d k rest) as [[vs rest']|]; [|lia].
    destruct IH as [Hlen' [Hk Hvs]].
    repeat split; [lia | simpl; lia | constructor; assumption].
Qed.

Lemma read_fields_reads (D : ctype -> reader cvalue) (SA : ctype -> N * N)
      (fl : list (string * ctype)) :
  Forall (fun f => reads (D (snd f)) (N.to_nat (fst (SA (snd f))))
                         (instance_of (snd f))) fl ->
  forall off,
    reads (read_fields (map (fun f => (fst f, D (snd f), SA (snd f))) fl) off)
          (N.to_nat (fields_end off (map (fun f => SA (snd f)) fl) - off))
          (fun vs =>
             Forall2 (fun f fv => fst f = fst fv /\ instance_of (snd f) (snd fv))
                     fl vs).
Proof.
  induction 1 as [|[name t] fl Hf Hfl IH]; intros off bs.
  - simpl. split; [lia | constructor].
  - cbn [map read_fields fields_end fst snd] in *.
    destruct (SA t) as [s a] eqn:Esa. cbn [fst] in Hf.
    pose proof (round_up_ge off a) as Hup.
    pose proof (fields_end_ge (map (fun f => SA (snd f)) fl) (round_up off a + s))
      as Hend.
    pose proof (take_reads (N.to_nat (round_up off a - off)) bs) as Htake.
    destruct (take (N.to_nat (round_up off a - off)) bs) as [[gap bs1]|];
      [|lia].
    destruct Htake as [Hlen1 _].
    specialize (Hf bs1). destruct (D t bs1) as [[v bs2]|]; [|lia].
    destruct Hf as [Hlen2 Hv].
    specialize (IH (round_up off a + s) bs2).
    destruct (read_fields _ _ bs2) as [[vs bs3]|]; [|lia].
    destruct IH as [Hlen3 Hvs].
    split; [lia|]. constructor; [split; [reflexivity | exact Hv] | exact Hvs].
Qed.

(** Decoding [t] fails exactly on buffers shorter than [sizeof t]; on the
    others it consumes [sizeof t] bytes and yields an instance of [t]. *)
Lemma decode_reads abi (t : ctype) :
  reads (decode abi t) (N.to_nat (sizeof abi t)) (instance_of t).
Proof.
  induction t as [ | | | | | | | |e n IH|name fs IH] using ctype_ind;
    try (apply read_scalar_reads; intros raw; constructor).
  - intros bs. cbn [decode].
    pose proof (read_many_reads _ _ _ IH (N.to_nat n) bs) as H.
    destruct (read_many (decode abi e) (N.to_nat n) bs) as [[vs rest]|].
    + destruct H as [Hlen [Hk Hvs]]. split.
      * unfold sizeof in *. cbn [size_align fst]. rewrite N2Nat.inj_mul. lia.
      * constructor; assumption.
    + unfold sizeof in *. cbn [size_align fst]. rewrite N2Nat.inj_mul. lia.
  - intros bs. cbn [decode].
    pose proof (read_fields_reads (decode abi) (size_align abi) fs IH 0 bs) as H.
    unfold sizeof. cbn [size_align fst].
    set (sa := map (fun f => size_align abi (snd f)) fs) in *.
    pose proof (round_up_ge (fields_end 0 sa) (fields_align sa)) as Hup.
    destruct (read_fields _ 0 bs) as [[vs rest]|]; [|lia].
    destruct H as [Hlen Hvs].
    pose proof (take_reads
                  (N.to_nat (round_up (fields_end 0 sa) (fields_align sa)
                             - fields_end 0 sa)) rest) as Htake.
    destruct (take _ rest) as [[gap rest']|]; [|lia].
    destruct Htake as [Hlen' _]. split; [lia | constructor; exact Hvs].
Qed.

(** Following a path of field names in an instance leads to an instance
    of the type the same path leads to in the layout. *)
Lemma instance_field (fs : list (string * ctype)) vs f t :
  Forall2 (fun d fv => fst d = fst fv /\ instance_of (snd d) (snd fv)) fs vs ->
  assoc f fs = Some t ->
  exists v, assoc f vs = Some v /\ instance_of t v.
Proof.
  induction 1 as [|[n t'] [n' v'] fs vs [Hn Hi] _ IH]; simpl; [discriminate|].
  simpl in Hn, Hi. subst n'. destruct (String.eqb f n).
  - intros [= <-]. eauto.
  - exact IH.
Qed.

Lemma instance_path (p : list string) :
  forall t v t',
    instance_of t v -> tpath p t = Some t' ->
    exists v', vpath p v = Some v' /\ instance_of t' v'.
Proof.
  induction p as [|f p IH]; intros t v t' Hi Ht; simpl in *.
  - injection Ht as <-. eauto.
  - destruct (field_type t f) as [tf|] eqn:Ef; [|discriminate].
    unfold field_type in Ef.
    destruct Hi; simpl in Ef; try discriminate.
    destruct (instance_field fs vs f tf H Ef) as [vf [Hvf Hif]].
    simpl. rewrite Hvf. eapply IH; eassumption.
Qed.

Lemma instance_length (p : list string) t v n :
  instance_of t v -> declared_length p t = Some n -> len_at p v = Some n.
Proof.
  intros Hi Hd. unfold declared_length in Hd. unfold len_at.
  destruct (tpath p t) as [[ | | | | | | | |e m|]|] eqn:Et; try discriminate.
  injection Hd as ->.
  destruct (instance_path p t v _ Hi Et) as [a [-> Ha]].
  inversion Ha; subst. simpl. f_equal. lia.
Qed.

(** ** The version number *)

Lemma land_ones_lt (a : N) (k : N) : N.land a (N.ones k) < 2 ^ k.
Proof. rewrite N.land_ones. apply N.mod_lt. apply N.pow_nonzero. lia. Qed.

Lemma version_major_lt raw : version_major raw < 128.
Proof. exact (land_ones_lt (N.shiftr raw 8) 7). Qed.

Lemma version_minor_lt raw : version_minor raw < 256.
Proof. exact (land_ones_lt raw 8). Qed.

Lemma In_below (n x : N) : x < n -> In x (below (N.to_nat n)).
Proof.
  intros H. unfold below. rewrite <- (N2Nat.id x).
  apply in_map. apply in_seq. lia.
Qed.

(** Using a fact checked for every number below a bound. *)
Ltac at_number H Hlt :=
  rewrite forallb_forall in H; specialize (H _ (In_below _ _ Hlt)).

(** The literal [get_version] builds always parses, to the number written
    [major.minor]. *)
Lemma literal_of_every_version :
  forallb (fun major =>
    forallb (fun minor =>
      match literal_value (str major ++ "." ++ str minor) with
      | Some q =>
          Qeq_bool q
            (inject_Z (Z.of_N major)
             + inject_Z (Z.of_N minor)
               / inject_Z (10 ^ Z.of_nat (String.length (str minor))))%Q
      | None => false
      end) (below 256)) (below 128) = true.
Proof. vm_compute. reflexivity. Qed.

Lemma literal_of_version raw :
  exists q,
    literal_value (str (version_major raw) ++ "." ++ str (version_minor raw))
    = Some q
    /\ (q == major_dot_minor raw)%Q.
Proof.
  pose proof literal_of_every_version as H.
  at_number H (version_major_lt raw). at_number H (version_minor_lt raw).
  destruct (literal_value _) as [q|]; [|discriminate].
  exists q. split; [reflexivity|]. apply Qeq_bool_iff. exact H.
Qed.

(** C1, as stated, fails: a header with aversion 0x8203, as atop 2.3
    writes it (major 2, minor 3, most significant bit set), has version
    2.3, and major + minor/100 is 2.03. *)
Lemma get_version_is_not_major_plus_hundredths :
  version_major 0x8203 = 2
  /\ version_minor 0x8203 = 3
  /\ exists q,
       fst (get_version (header_with_version 0x8203)) = Returned q
       /\ (q == 23 # 10)%Q
       /\ (major_plus_hundredths 0x8203 == 203 # 100)%Q
       /\ ~ (q == major_plus_hundredths 0x8203)%Q.
Proof.
  split; [reflexivity|]. split; [reflexivity|].
  eexists. split; [vm_compute; reflexivity|].
  repeat apply conj; try reflexivity. intros H. vm_compute in H. discriminate H.
Qed.

(** Running [get_version]: it returns, and leaves the header as it was. *)
Lemma get_version_run (h : HeaderObject) :
  exists q,
    get_version h = (Returned q, h)
    /\ (q == major_dot_minor (aversion h))%Q.
Proof.
  destruct (literal_of_version (aversion h)) as [q [Hq Heq]].
  exists q. split; [|exact Heq].
  unfold get_version, bind, attr, ret, float.
  change (N.land (N.shiftr (aversion h) 8) 0x7f) with (version_major (aversion h)).
  change (N.land (aversion h) 0xff) with (version_minor (aversion h)).
  rewrite Hq. reflexivity.
Qed.

(** C1, amended: for every header, [get_version] returns, with
    major = (aversion >> 8) & 0x7f and minor = aversion & 0xff, the number
    whose decimal notation is "major.minor", that is
    major + minor / 10^d with d the number of decimal digits of minor. *)
Theorem get_version_is_major_dot_minor (h : HeaderObject) :
  exists q,
    fst (get_version h) = Returned q
    /\ (q == major_dot_minor (aversion h))%Q
    /\ version_major (aversion h) = N.land (N.shiftr (aversion h) 8) 0x7f
    /\ version_minor (aversion h) = N.land (aversion h) 0xff
    /\ major_dot_minor (aversion h)
       = (inject_Z (Z.of_N (version_major (aversion h)))
          + inject_Z (Z.of_N (version_minor (aversion h)))
            / inject_Z (10 ^ Z.of_nat
                               (String.length (str (version_minor (aversion h))))))%Q.
Proof.
  destruct (get_version_run h) as [q [Hrun Heq]].
  exists q. rewrite Hrun. repeat split. exact Heq.
Qed.

(** When the minor number has two digits, the version is
    major + minor/100. *)
Lemma two_digit_minor_hundredths :
  forallb (fun major =>
    forallb (fun minor =>
      implb ((10 <=? minor) && (minor <=? 99))
            (Qeq_bool
               (inject_Z (Z.of_N major)
                + inject_Z (Z.of_N minor)
                  / inject_Z (10 ^ Z.of_nat (String.length (str minor))))
               (inject_Z (Z.of_N major)
                + inject_Z (Z.of_N minor) / inject_Z 100))%Q)
      (below 256)) (below 128) = true.
Proof. vm_compute. reflexivity. Qed.

Lemma get_version_two_digit_minor (h : HeaderObject) :
  10 <= version_minor (aversion h) <= 99 ->
  (major_dot_minor (aversion h) == major_plus_hundredths (aversion h))%Q.
Proof.
  intros [Hlo Hhi].
  pose proof two_digit_minor_hundredths as H.
  at_number H (version_major_lt (aversion h)).
  at_number H (version_minor_lt (aversion h)).
  apply N.leb_le in Hlo, Hhi. rewrite Hlo, Hhi in H. simpl in H.
  apply Qeq_bool_iff. exact H.
Qed.

(** ** [check_compatibility] *)

(** What the method does, with the four sizes it compares against named. *)
Lemma check_compatibility_unfold abi m (h : HeaderObject) :
  check_compatibility abi m h
  = let compatible := [
      sstatlen h =? sizeof abi (SStat m);
      tstatlen h =? sizeof abi (TStat m);
      rawheadlen h =? sizeof abi (Header m);
      rawreclen h =? sizeof abi Record
    ] in
    (if negb (all compatible) then
       Raised (ValueError
                 ("File has incompatible atop format. Struct length evaluations: "
                  ++ repr_list compatible))
     else Returned tt, h).
Proof.
  unfold check_compatibility, bind, attr. cbv zeta.
  destruct (negb _); reflexivity.
Qed.

(** C2: [check_compatibility] raises exactly when one of the four length
    fields differs from the size this module computes, returns normally
    exactly when all four agree, and the message of the error lets the
    caller read off which fields differ. *)
Theorem check_compatibility_raises_iff_mismatch abi m (h : HeaderObject) :
  let agree :=
    sstatlen h = sizeof abi (SStat m)
    /\ tstatlen h = sizeof abi (TStat m)
    /\ rawheadlen h = sizeof abi (Header m)
    /\ rawreclen h = sizeof abi Record in
  (raises (check_compatibility abi m h) = true <-> ~ agree)
  /\ (fst (check_compatibility abi m h) = Returned tt <-> agree)
  /\ (forall e,
        fst (check_compatibility abi m h) = Raised e ->
        mismatched_fields e
        = Some ((if sstatlen h =? sizeof abi (SStat m) then [] else ["sstatlen"])
                ++ (if tstatlen h =? sizeof abi (TStat m) then [] else ["tstatlen"])
                ++ (if rawheadlen h =? sizeof abi (Header m) then [] else ["rawheadlen"])
                ++ (if rawreclen h =? sizeof abi Record then [] else ["rawreclen"]))%list
        /\ mismatched_fields e <> Some []).
Proof.
  rewrite check_compatibility_unfold. cbv zeta.
  generalize (sizeof abi (SStat m)) (sizeof abi (TStat m))
             (sizeof abi (Header m)) (sizeof abi Record).
  intros s t hd r. unfold raises.
  destruct (N.eqb_spec (sstatlen h) s) as [E1|E1],
           (N.eqb_spec (tstatlen h) t) as [E2|E2],
           (N.eqb_spec (rawheadlen h) hd) as [E3|E3],
           (N.eqb_spec (rawreclen h) r) as [E4|E4];
    cbn [all forallb negb andb fst];
    (split; [split; [try discriminate; tauto | try tauto]
            |split; [split; [try discriminate; tauto | try tauto]
                    |intros e He;
                     first [discriminate He
                           |injection He as <-;
                            split; [reflexivity | discriminate]]]]).
Qed.

(** The forged header of the specification: [sstatlen] one byte too
    large.  The error names [sstatlen] and nothing else. *)
Example forged_sstatlen_is_rejected :
  fst (check_compatibility lp64 atop_126_sample
         (forged_header lp64 atop_126_sample))
  = Raised (ValueError
      "File has incompatible atop format. Struct length evaluations: [False, True, True, True]")
  /\ fst (check_compatibility lp64 atop_126_sample
            (header_2_3 lp64 atop_126_sample)) = Returned tt.
Proof. split; vm_compute; reflexivity. Qed.

(** C9: neither method changes the header: whatever [get_version] returns
    and whether [check_compatibility] returns or raises, the object they
    end with is the object they started from, field by field. *)
Theorem methods_leave_header_unchanged abi m (h : HeaderObject) :
  snd (get_version h) = h
  /\ snd (check_compatibility abi m h) = h
  /\ (forall e, fst (check_compatibility abi m h) = Raised e ->
                check_compatibility abi m h = (Raised e, h)).
Proof.
  repeat split.
  - destruct (get_version_run h) as [q [-> _]]. reflexivity.
  - rewrite check_compatibility_unfold. reflexivity.
  - intros e He. rewrite check_compatibility_unfold in *. cbv zeta in *.
    cbn [fst] in He. rewrite He. reflexivity.
Qed.

(** C10: two headers that agree on [sstatlen], [tstatlen], [rawheadlen]
    and [rawreclen] are both accepted or both rejected, and a rejection
    carries the same error for both, whatever their other fields hold. *)
Theorem check_compatibility_depends_on_lengths_only abi m (h1 h2 : HeaderObject) :
  sstatlen h1 = sstatlen h2 ->
  tstatlen h1 = tstatlen h2 ->
  rawheadlen h1 = rawheadlen h2 ->
  rawreclen h1 = rawreclen h2 ->
  raises (check_compatibility abi m h1) = raises (check_compatibility abi m h2)
  /\ fst (check_compatibility abi m h1) = fst (check_compatibility abi m h2).
Proof.
  intros Hs Ht Hh Hr. unfold raises.
  rewrite !check_compatibility_unfold. cbv zeta. cbn [fst].
  rewrite Hs, Ht, Hh, Hr. split; reflexivity.
Qed.

Lemma check_compatibility_depends_on_lengths_only_witness :
  let h1 := header_2_3 lp64 atop_126_sample in
  let h2 := relabelled_header lp64 atop_126_sample in
  (magic h1 <> magic h2 /\ aversion h1 <> aversion h2 /\ hertz h1 <> hertz h2)
  /\ (sstatlen h1 = sstatlen h2 /\ tstatlen h1 = tstatlen h2
      /\ rawheadlen h1 = rawheadlen h2 /\ rawreclen h1 = rawreclen h2)
  /\ raises (check_compatibility lp64 atop_126_sample h1)
     = raises (check_compatibility lp64 atop_126_sample h2)
  /\ fst (check_compatibility lp64 atop_126_sample h1)
     = fst (check_compatibility lp64 atop_126_sample h2).
Proof.
  cbv zeta. split; [|split].
  - repeat split; discriminate.
  - repeat split; reflexivity.
  - apply (check_compatibility_depends_on_lengths_only lp64 atop_126_sample
             (header_2_3 lp64 atop_126_sample)
             (relabelled_header lp64 atop_126_sample));
      reflexivity.
Defined.

(** ** Sizes and padding *)

(** C3, as stated, fails: [GEN] is one of the declared layouts, its fields
    are 382 bytes wide together, and [ctypes.sizeof(GEN)] is 384: two
    bytes of padding stand between [state] and [excode].  The same two
    bytes are there on ILP32. *)
Lemma sizeof_GEN_exceeds_field_widths :
  (forall m, In GEN (declared m))
  /\ sizeof lp64 GEN = 384
  /\ sum_of_widths lp64 GEN = 382
  /\ offsetof lp64 GEN "state" = Some 65
  /\ sizeof lp64 c_char = 1
  /\ offsetof lp64 GEN "excode" = Some 68
  /\ sizeof lp64 GEN <> sum_of_widths lp64 GEN
  /\ sizeof ilp32 GEN <> sum_of_widths ilp32 GEN.
Proof.
  split; [intros m; apply nth_error_In with (n := 17%nat); reflexivity|].
  repeat apply conj; try (vm_compute; reflexivity); vm_compute; discriminate.
Qed.

(** Whatever [FreqCnt] is, [PerCPU] has four bytes of padding on LP64
    between [cpunr] and [stime]. *)
Lemma PerCPU_padding m : 4 <= padding lp64 (PerCPU m).
Proof.
  unfold padding, field_types. cbn [PerCPU _fields_ map snd].
  destruct (size_align lp64 (FreqCnt m)) as [s a].
  cbn [fields_padding size_align count_t lp64 longlong_align].
  change (round_up 0 4) with 0. change (round_up (0 + 4) 8) with 8. lia.
Qed.

Lemma declared_are_structures m :
  Forall (fun t => exists name fs, t = Structure name fs) (declared m).
Proof. unfold declared. repeat constructor; eexists; eexists; reflexivity. Qed.

(** C3, amended: for every layout declared in the module, [sizeof] is the
    sum of the declared field widths plus the alignment padding that
    ctypes puts in front of fields and after the last one, so it is never
    less than the sum of the widths.  On LP64 and on ILP32 the padding is
    zero for MemStat, PerDSK, PerNFSMount, Server, Client, NFSStat,
    PerContainer, MEM and NET; on LP64 it is 2 bytes for GEN and 4 bytes
    for Record, DSKStat, IntfStat, NFSMounts and ContStat, and 14 bytes for
    PerIntf. *)
Theorem sizeof_is_field_widths_plus_padding abi m :
  Forall (fun t => sizeof abi t = sum_of_widths abi t + padding abi t
                   /\ sum_of_widths abi t <= sizeof abi t)
         (declared m)
  /\ Forall (fun t => padding lp64 t = 0 /\ padding ilp32 t = 0)
            [MemStat; PerDSK; PerNFSMount; Server; Client; NFSStat;
             PerContainer; MEM; NET]
  /\ map (padding lp64)
         [GEN; Record; DSKStat; IntfStat; NFSMounts; ContStat; PerIntf]
     = [2; 4; 4; 4; 4; 4; 14]
  /\ 4 <= padding lp64 (PerCPU m).
Proof.
  split; [|split; [|split]].
  - eapply Forall_impl; [|apply declared_are_structures].
    intros t [name [fs ->]]. rewrite sizeof_widths_padding. lia.
  - repeat constructor.
  - reflexivity.
  - apply PerCPU_padding.
Qed.

(** ** Names taken over from [atop_126] *)

(** C4: each of the thirteen names the module takes over from [atop_126]
    is the [atop_126] class itself; its size is the same under both
    modules, and every buffer decodes to the same result under both.  The
    layouts of 2.30 that embed such a class embed the [atop_126] one. *)
Theorem reused_layouts_are_those_of_atop_126 abi m :
  map (fun r => fst (fst r)) (reused m)
  = ["UTSName"; "FreqCnt"; "WWWStat"; "IPv4Stats"; "ICMPv4Stats";
     "UDPv4Stats"; "TCPStats"; "IPv6Stats"; "ICMPv6Stats"; "UDPv6Stats";
     "NETStat"; "CPU"; "DSK"]
  /\ Forall (fun r =>
               let alias := snd (fst r) in
               let canonical := snd r in
               alias = canonical
               /\ sizeof abi alias = sizeof abi canonical
               /\ alignment abi alias = alignment abi canonical
               /\ forall bs, decode abi alias bs = decode abi canonical bs)
            (reused m)
  /\ field_type (Header m) "utsname" = Some (atop_126.UTSName m)
  /\ field_type (PerCPU m) "freqcnt" = Some (atop_126.FreqCnt m)
  /\ field_type (SStat m) "net" = Some (atop_126.NETStat m)
  /\ field_type (SStat m) "www" = Some (atop_126.WWWStat m)
  /\ field_type (TStat m) "cpu" = Some (atop_126.CPU m)
  /\ field_type (TStat m) "dsk" = Some (atop_126.DSK m).
Proof.
  split; [reflexivity|]. split; [|repeat split].
  unfold reused. repeat constructor.
Qed.

(** ** Arrays of [SStat] *)

(** C5: in [SStat] the per-core array is declared with 2048 [PerCPU]
    entries, the per-disk array with 1024, the per-interface array with
    128, the per-container array with 128 and the per-NFS-mount array with
    64; and on every buffer decoding either fails because the buffer is
    shorter than [sizeof(SStat)], or yields an object in which these arrays
    have exactly these lengths, whatever the count fields next to them
    hold. *)
Theorem SStat_arrays_have_declared_maxima abi m (bs : list Byte.byte) :
  (tpath ["cpu"; "cpu"] (SStat m) = Some (Array (PerCPU m) 2048)
   /\ tpath ["dsk"; "dsk"] (SStat m) = Some (Array PerDSK 1024)
   /\ tpath ["intf"; "intf"] (SStat m) = Some (Array PerIntf 128)
   /\ tpath ["cfs"; "cont"] (SStat m) = Some (Array PerContainer 128)
   /\ tpath ["nfs"; "nfsmounts"; "pernfsmount"] (SStat m)
      = Some (Array PerNFSMount 64))
  /\ match decode abi (SStat m) bs with
     | Some (sstat, _) =>
         len_at ["cpu"; "cpu"] sstat = Some 2048
         /\ len_at ["dsk"; "dsk"] sstat = Some 1024
         /\ len_at ["intf"; "intf"] sstat = Some 128
         /\ len_at ["cfs"; "cont"] sstat = Some 128
         /\ len_at ["nfs"; "nfsmounts"; "pernfsmount"] sstat = Some 64
     | None => (List.length bs < N.to_nat (sizeof abi (SStat m)))%nat
     end.
Proof.
  split; [repeat split|].
  pose proof (decode_reads abi (SStat m) bs) as H.
  destruct (decode abi (SStat m) bs) as [[sstat rest]|]; [|exact H].
  destruct H as [_ Hi].
  repeat split; apply (instance_length _ (SStat m)); trivial.
Qed.

(** ** The composition of [SStat] *)

Lemma round_up_0 (a : N) : round_up 0 a = 0.
Proof.
  unfold round_up. destruct (N.eqb_spec a 0) as [->|Ha]; [reflexivity|].
  rewrite N.add_0_l. rewrite N.div_small by lia. reflexivity.
Qed.

(** C6, as stated, fails: the sub-records of [SStat] do not come in the
    order CPUStat, MemStat, DSKStat, IntfStat, NFSStat, ContStat, NETStat,
    WWWStat.  The fifth field is [dsk], where the listed order has
    NFSStat, whatever [atop_126] declares; and DSKStat starts behind NETStat
    and IntfStat, not behind MemStat. *)
Lemma SStat_is_not_in_the_listed_order :
  field_types (SStat atop_126_sample) <> spec_SStat_order atop_126_sample
  /\ (forall m, nth_error (_fields_ (SStat m)) 4 = Some ("dsk", DSKStat))
  /\ (forall m, nth_error (spec_SStat_order m) 4 = Some NFSStat)
  /\ (forall m, field_types (SStat m) <> spec_SStat_order m)
  /\ offsetof lp64 (SStat atop_126_sample) "dsk"
     <> Some (round_up (sizeof lp64 (CPUStat atop_126_sample) + sizeof lp64 MemStat)
                       (alignment lp64 DSKStat)).
Proof.
  assert (Hall : forall m, field_types (SStat m) <> spec_SStat_order m).
  { intros m H.
    apply (f_equal (fun l => match nth_error l 4 with
                             | Some (Structure name _) => name
                             | _ => ""
                             end)) in H.
    vm_compute in H. discriminate H. }
  split; [apply Hall|]. split; [reflexivity|]. split; [reflexivity|].
  split; [exact Hall|]. vm_compute. discriminate.
Qed.

(** C6, amended: [SStat] is composed of exactly the sub-records CPUStat,
    MemStat, NETStat, IntfStat, DSKStat, NFSStat, ContStat, WWWStat, as the
    fields cpu, mem, net, intf, dsk, nfs, cfs, www in that order, and the
    byte offset of each is determined by that order: the first is at 0 and
    each next one at the end of the one before it, rounded up to its own
    alignment. *)
Theorem SStat_sub_records_in_declared_order abi m :
  _fields_ (SStat m)
  = [("cpu", CPUStat m); ("mem", MemStat); ("net", NETStat m);
     ("intf", IntfStat); ("dsk", DSKStat); ("nfs", NFSStat);
     ("cfs", ContStat); ("www", WWWStat m)]
  /\ (let next off prev this :=
        round_up (off + sizeof abi prev) (alignment abi this) in
      let o_cpu := 0 in
      let o_mem := next o_cpu (CPUStat m) MemStat in
      let o_net := next o_mem MemStat (NETStat m) in
      let o_intf := next o_net (NETStat m) IntfStat in
      let o_dsk := next o_intf IntfStat DSKStat in
      let o_nfs := next o_dsk DSKStat NFSStat in
      let o_cfs := next o_nfs NFSStat ContStat in
      let o_www := next o_cfs ContStat (WWWStat m) in
      offsets abi (SStat m)
      = [("cpu", o_cpu); ("mem", o_mem); ("net", o_net); ("intf", o_intf);
         ("dsk", o_dsk); ("nfs", o_nfs); ("cfs", o_cfs); ("www", o_www)]).
Proof.
  split; [reflexivity|]. cbv zeta.
  unfold offsets, field_names, field_types, sizeof, alignment.
  cbn [SStat _fields_ map fst snd combine fields_offsets].
  generalize (size_align abi (CPUStat m)) (size_align abi MemStat)
             (size_align abi (NETStat m)) (size_align abi IntfStat)
             (size_align abi DSKStat) (size_align abi NFSStat)
             (size_align abi ContStat) (size_align abi (WWWStat m)).
  intros [s1 a1] [s2 a2] [s3 a3] [s4 a4] [s5 a5] [s6 a6] [s7 a7] [s8 a8].
  cbn [map fst snd combine fields_offsets].
  rewrite round_up_0. reflexivity.
Qed.

(** ** The fields of [Record] *)

(** C7, as stated, fails: no field of [Record] holds an uncompressed
    length.  [scomplen] and [pcomplen], the only length fields, are the
    lengths of the compressed sstat and of the compressed tstats. *)
Lemma Record_has_no_uncompressed_lengths :
  ~ Forall (fun a => fields_holding a <> []) spec_Record_attributes
  /\ fields_holding (uncompressed_length sstat_blob) = []
  /\ fields_holding (uncompressed_length tstat_blob) = [].
Proof.
  split; [|split; reflexivity].
  intros H. unfold spec_Record_attributes in H.
  do 4 (apply Forall_inv_tail in H). apply Forall_inv in H.
  apply H. reflexivity.
Qed.

(** C7, amended: the fields of [Record] are the sample timestamp
    ([curtime]), the flags, the byte lengths of the compressed SStat blob
    ([scomplen]) and of the compressed TStat blob ([pcomplen]), the counts
    of tasks, processes and threads in various states (among them
    [ndeviat], the number of tasks in the list), the interval duration and
    fields for future use; the uncompressed lengths are not among them. *)
Theorem Record_fields_and_what_they_hold :
  field_names Record
  = ["curtime"; "flags"; "sfuture"; "scomplen"; "pcomplen"; "interval";
     "ndeviat"; "nactproc"; "ntask"; "totproc"; "totrun"; "totslpi";
     "totslpu"; "totzomb"; "nexit"; "noverflow"; "ifuture"]
  /\ map (fun d => fst (fst d)) Record_doc = field_names Record
  /\ Forall (fun a => fields_holding a <> []) Record_attributes
  /\ fields_holding sample_time = ["curtime"]
  /\ fields_holding flag_bits = ["flags"]
  /\ fields_holding (compressed_length sstat_blob) = ["scomplen"]
  /\ fields_holding (compressed_length tstat_blob) = ["pcomplen"]
  /\ fields_holding interval_duration = ["interval"]
  /\ fields_holding (count_of tasks) = ["ndeviat"; "ntask"]
  /\ fields_holding (count_of processes)
     = ["nactproc"; "totproc"; "totzomb"; "nexit"; "noverflow"]
  /\ fields_holding (count_of threads) = ["totrun"; "totslpi"; "totslpu"]
  /\ fields_holding future_use = ["sfuture"; "ifuture"]
  /\ (forall b, fields_holding (uncompressed_length b) = []).
Proof.
  split; [vm_compute; reflexivity|].
  split; [vm_compute; reflexivity|].
  split.
  { unfold Record_attributes. repeat constructor; vm_compute; discriminate. }
  repeat apply conj; try (vm_compute; reflexivity).
Qed.

(** ** The head of [Header] *)

Lemma packed_version_every :
  forallb (fun msb =>
    forallb (fun major =>
      forallb (fun minor =>
        let raw := packed_version msb major minor in
        (raw <? 65536) && (version_major raw =? major)
        && (version_minor raw =? minor)
        && (raw =? msb * 32768 + major * 256 + minor))
      (below 256)) (below 128)) (below 2) = true.
Proof. vm_compute. reflexivity. Qed.

(** C8: the first field of [Header] is [magic], an unsigned integer of 4
    bytes at offset 0; the field right behind it, at offset 4, is
    [aversion], an unsigned integer of 16 bits; and a version packed as
    major<<8 | minor, with or without the most significant bit set, fits
    in 16 bits and unpacks to major and minor when major has at most 7
    bits and minor at most 8. *)
Theorem Header_starts_with_magic_and_aversion abi m (msb major minor : N) :
  msb < 2 -> major < 128 -> minor < 256 ->
  (nth_error (_fields_ (Header m)) 0 = Some ("magic", c_uint)
   /\ offsetof abi (Header m) "magic" = Some 0
   /\ sizeof abi c_uint = 4 /\ is_unsigned c_uint = true)
  /\ (nth_error (_fields_ (Header m)) 1 = Some ("aversion", c_ushort)
      /\ offsetof abi (Header m) "aversion" = Some 4
      /\ 8 * sizeof abi c_ushort = 16 /\ is_unsigned c_ushort = true)
  /\ (packed_version msb major minor < 2 ^ 16
      /\ version_major (packed_version msb major minor) = major
      /\ version_minor (packed_version msb major minor) = minor)
  /\ (forall raw, version_major raw < 2 ^ 7 /\ version_minor raw < 2 ^ 8).
Proof.
  intros Hmsb Hmajor Hminor. split; [|split; [|split]].
  - repeat split.
  - repeat split.
  - pose proof packed_version_every as H.
    at_number H Hmsb. at_number H Hmajor. at_number H Hminor.
    cbv zeta in H. rewrite !andb_true_iff in H.
    destruct H as [[[Hlt Hmaj] Hmin] _].
    apply N.ltb_lt in Hlt. apply N.eqb_eq in Hmaj, Hmin.
    repeat split; assumption.
  - intros raw. split; [apply version_major_lt | apply version_minor_lt].
Qed.

Lemma Header_starts_with_magic_and_aversion_witness :
  (1 < 2 /\ 2 < 128 /\ 3 < 256)
  /\ (nth_error (_fields_ (Header atop_126_sample)) 0 = Some ("magic", c_uint)
      /\ offsetof lp64 (Header atop_126_sample) "magic" = Some 0
      /\ sizeof lp64 c_uint = 4 /\ is_unsigned c_uint = true)
  /\ (nth_error (_fields_ (Header atop_126_sample)) 1
      = Some ("aversion", c_ushort)
      /\ offsetof lp64 (Header atop_126_sample) "aversion" = Some 4
      /\ 8 * sizeof lp64 c_ushort = 16 /\ is_unsigned c_ushort = true)
  /\ (packed_version 1 2 3 < 2 ^ 16
      /\ version_major (packed_version 1 2 3) = 2
      /\ version_minor (packed_version 1 2 3) = 3)
  /\ (forall raw, version_major raw < 2 ^ 7 /\ version_minor raw < 2 ^ 8).
Proof.
  split; [lia|].
  apply (Header_starts_with_magic_and_aversion lp64 atop_126_sample 1 2 3); lia.
Defined.

(** ** Decoding concrete buffers *)

(** A [ContStat] whose count field says one container still decodes to
    all 128 entries, and takes all of [sizeof(ContStat)] bytes. *)
Example ContStat_with_one_container :
  sizeof lp64 ContStat = 7176
  /\ match decode lp64 ContStat
             (Byte.x01 :: repeat Byte.x00 (N.to_nat 7175)) with
     | Some (cfs, rest) =>
         vpath ["nrcontainer"] cfs = Some (V_int 1)
         /\ len_at ["cont"] cfs = Some 128
         /\ rest = []
     | None => False
     end
  /\ decode lp64 ContStat (Byte.x01 :: repeat Byte.x00 (N.to_nat 7174)) = None.
Proof. repeat apply conj; vm_compute; repeat split. Qed.

(** A [Record] read from 96 bytes on LP64: the four bytes behind
    [ifuture] are padding and are consumed with it. *)
Example Record_from_96_bytes :
  match decode lp64 Record
          (repeat Byte.x00 8 ++ [Byte.x01; Byte.x00] ++ repeat Byte.x00 6
           ++ [Byte.x10; Byte.x02; Byte.x00; Byte.x00] ++ repeat Byte.x00 76)%list with
  | Some (rec, rest) =>
      vpath ["flags"] rec = Some (V_int 1)
      /\ vpath ["scomplen"] rec = Some (V_int 528)
      /\ len_at ["ifuture"] rec = Some 6
      /\ rest = []
  | None => False
  end.
Proof. vm_compute. repeat split. Qed.

(** * Further properties of the module *)

(** ** More on [get_version] *)

(** The outcome of [get_version] is that of [float] on the literal. *)
Lemma get_version_outcome (h : HeaderObject) :
  fst (get_version h)
  = match literal_value (str (version_major (aversion h)) ++ "."
                         ++ str (version_minor (aversion h))) with
    | Some q => Returned q
    | None =>
        Raised (ValueError
                  ("could not convert string to float: '"
                   ++ (str (version_major (aversion h)) ++ "."
                       ++ str (version_minor (aversion h))) ++ "'"))
    end.
Proof.
  unfold get_version, bind, attr, ret, float.
  change (N.land (N.shiftr (aversion h) 8) 0x7f) with (version_major (aversion h)).
  change (N.land (aversion h) 0xff) with (version_minor (aversion h)).
  destruct (literal_value _); reflexivity.
Qed.

Lemma version_minor_low_bits raw :
  version_minor (N.land raw 0x7fff) = version_minor raw.
Proof.
  unfold version_minor. rewrite <- N.land_assoc. reflexivity.
Qed.

Lemma version_major_low_bits raw :
  version_major (N.land raw 0x7fff) = version_major raw.
Proof.
  unfold version_major. rewrite N.shiftr_land.
  change (N.shiftr 0x7fff 8) with 0x7f.
  rewrite <- N.land_assoc. reflexivity.
Qed.

(** X1: the version depends on the low 15 bits of [aversion] only: the
    most significant bit, and every other field of the header, are
    ignored. *)
Theorem get_version_reads_low_15_bits (h1 h2 : HeaderObject) :
  N.land (aversion h1) 0x7fff = N.land (aversion h2) 0x7fff ->
  fst (get_version h1) = fst (get_version h2).
Proof.
  intros H. rewrite !get_version_outcome.
  rewrite <- (version_major_low_bits (aversion h1)),
          <- (version_minor_low_bits (aversion h1)), H,
          version_major_low_bits, version_minor_low_bits.
  reflexivity.
Qed.

Lemma get_version_reads_low_15_bits_witness :
  aversion (header_with_version 0x8203) <> aversion (header_with_version 0x0203)
  /\ N.land (aversion (header_with_version 0x8203)) 0x7fff
     = N.land (aversion (header_with_version 0x0203)) 0x7fff
  /\ fst (get_version (header_with_version 0x8203))
     = fst (get_version (header_with_version 0x0203)).
Proof.
  split; [discriminate|]. split; [reflexivity|].
  apply (get_version_reads_low_15_bits
           (header_with_version 0x8203) (header_with_version 0x0203)).
  reflexivity.
Defined.

(** The version lies between the major number and the next integer. *)
Lemma version_between_every :
  forallb (fun major =>
    forallb (fun minor =>
      let q := (inject_Z (Z.of_N major)
                + inject_Z (Z.of_N minor)
                  / inject_Z (10 ^ Z.of_nat (String.length (str minor))))%Q in
      Qle_bool (inject_Z (Z.of_N major)) q
      && negb (Qle_bool (inject_Z (Z.of_N major) + 1) q))
      (below 256)) (below 128) = true.
Proof. vm_compute. reflexivity. Qed.

Lemma major_dot_minor_between raw :
  (inject_Z (Z.of_N (version_major raw)) <= major_dot_minor raw)%Q
  /\ (major_dot_minor raw < inject_Z (Z.of_N (version_major raw)) + 1)%Q.
Proof.
  pose proof version_between_every as H.
  at_number H (version_major_lt raw). at_number H (version_minor_lt raw).
  cbv zeta in H. apply andb_true_iff in H. destruct H as [Hlo Hhi].
  apply Qle_bool_iff in Hlo. apply negb_true_iff in Hhi.
  split; [exact Hlo|].
  apply Qnot_le_lt. intros Hle. apply Qle_bool_iff in Hle.
  unfold major_dot_minor in Hle. rewrite Hle in Hhi. discriminate.
Qed.

(** X2: the integer part of the version is the major number: the value
    returned is at least major and less than major + 1, hence at least 0
    and less than 128. *)
Theorem get_version_integer_part_is_major (h : HeaderObject) :
  exists q,
    fst (get_version h) = Returned q
    /\ (inject_Z (Z.of_N (version_major (aversion h))) <= q)%Q
    /\ (q < inject_Z (Z.of_N (version_major (aversion h))) + 1)%Q
    /\ (0 <= q)%Q /\ (q < 128)%Q.
Proof.
  destruct (get_version_run h) as [q [Hrun Heq]].
  destruct (major_dot_minor_between (aversion h)) as [Hlo Hhi].
  pose proof (version_major_lt (aversion h)) as Hm.
  exists q. rewrite Hrun. split; [reflexivity|]. rewrite Heq.
  split; [exact Hlo|]. split; [exact Hhi|]. split.
  - eapply Qle_trans; [|exact Hlo].
    change 0%Q with (inject_Z 0). rewrite <- Zle_Qle. lia.
  - eapply Qlt_le_trans; [exact Hhi|].
    change 1%Q with (inject_Z 1). rewrite <- inject_Z_plus.
    change 128%Q with (inject_Z 128). rewrite <- Zle_Qle. lia.
Qed.

Lemma equal_versions_equal_major (raw1 raw2 : N) :
  (major_dot_minor raw1 == major_dot_minor raw2)%Q ->
  version_major raw1 = version_major raw2.
Proof.
  intros Heq.
  destruct (major_dot_minor_between raw1) as [L1 U1].
  destruct (major_dot_minor_between raw2) as [L2 U2].
  rewrite Heq in L1, U1.
  assert (A : (inject_Z (Z.of_N (version_major raw1))
               < inject_Z (Z.of_N (version_major raw2) + 1))%Q).
  { rewrite inject_Z_plus. eapply Qle_lt_trans; eassumption. }
  assert (B : (inject_Z (Z.of_N (version_major raw2))
               < inject_Z (Z.of_N (version_major raw1) + 1))%Q).
  { rewrite inject_Z_plus. eapply Qle_lt_trans; eassumption. }
  rewrite <- Zlt_Qlt in A, B. lia.
Qed.

(** Which minor numbers stand for the same digits behind the dot. *)
Lemma same_fraction_every :
  forallb (fun m1 =>
    forallb (fun m2 =>
      Bool.eqb (Qeq_bool (fraction m1) (fraction m2)) (same_fractionb m1 m2))
      (below 256)) (below 256) = true.
Proof. vm_compute. reflexivity. Qed.

Lemma same_fractionb_iff (m1 m2 : N) :
  same_fractionb m1 m2 = true <-> same_fraction m1 m2.
Proof.
  unfold same_fractionb, same_fraction.
  rewrite !orb_true_iff, !N.eqb_eq. tauto.
Qed.

Lemma major_dot_minor_split raw :
  major_dot_minor raw
  = (inject_Z (Z.of_N (version_major raw)) + fraction (version_minor raw))%Q.
Proof. reflexivity. Qed.

(** X3: two headers have the same version exactly when they have the same
    major number and minor numbers that are equal or differ by a factor of
    10 or 100: the version tells 2.3 from 2.4 and from 3.3, and does not
    tell 2.1 from 2.10 or from 2.100. *)
Theorem versions_equal_iff (h1 h2 : HeaderObject) :
  exists q1 q2,
    fst (get_version h1) = Returned q1
    /\ fst (get_version h2) = Returned q2
    /\ ((q1 == q2)%Q <->
        version_major (aversion h1) = version_major (aversion h2)
        /\ same_fraction (version_minor (aversion h1))
                         (version_minor (aversion h2))).
Proof.
  destruct (get_version_run h1) as [q1 [R1 E1]].
  destruct (get_version_run h2) as [q2 [R2 E2]].
  exists q1, q2. rewrite R1, R2. split; [reflexivity|]. split; [reflexivity|].
  rewrite E1, E2.
  pose proof same_fraction_every as T.
  at_number T (version_minor_lt (aversion h1)).
  at_number T (version_minor_lt (aversion h2)).
  apply Bool.eqb_prop in T.
  split.
  - intros Heq. pose proof (equal_versions_equal_major _ _ Heq) as Hmaj.
    split; [exact Hmaj|]. apply same_fractionb_iff. rewrite <- T.
    apply Qeq_bool_iff. rewrite !major_dot_minor_split, Hmaj in Heq.
    apply Qplus_inj_l in Heq. exact Heq.
  - intros [Hmaj Hfrac]. apply same_fractionb_iff in Hfrac.
    rewrite <- T in Hfrac. apply Qeq_bool_iff in Hfrac.
    rewrite !major_dot_minor_split, Hmaj, Hfrac. reflexivity.
Qed.

(** The versions 2.1 and 2.10 of two different headers are the same
    number. *)
Example versions_2_1_and_2_10 :
  aversion (header_with_version 0x0201) <> aversion (header_with_version 0x020a)
  /\ exists q1 q2,
       fst (get_version (header_with_version 0x0201)) = Returned q1
       /\ fst (get_version (header_with_version 0x020a)) = Returned q2
       /\ (q1 == q2)%Q.
Proof.
  split; [discriminate|].
  eexists. eexists. split; [vm_compute; reflexivity|].
  split; [vm_compute; reflexivity|]. reflexivity.
Qed.

(** ** More on [check_compatibility] *)

Lemma check_compatibility_accepts abi m (h : HeaderObject) :
  fst (check_compatibility abi m h) = Returned tt ->
  sstatlen h = sizeof abi (SStat m)
  /\ tstatlen h = sizeof abi (TStat m)
  /\ rawheadlen h = sizeof abi (Header m)
  /\ rawreclen h = sizeof abi Record.
Proof.
  rewrite check_compatibility_unfold. cbv zeta. cbn [fst].
  destruct (N.eqb_spec (sstatlen h) (sizeof abi (SStat m))),
           (N.eqb_spec (tstatlen h) (sizeof abi (TStat m))),
           (N.eqb_spec (rawheadlen h) (sizeof abi (Header m))),
           (N.eqb_spec (rawreclen h) (sizeof abi Record));
    cbn [all forallb negb andb]; intros H; try discriminate H.
  repeat split; assumption.
Qed.

(** X4: the size of [Record] differs between platforms (96 bytes on LP64,
    88 on ILP32), so a header accepted on LP64 has [rawreclen] 96, a header
    accepted on ILP32 has [rawreclen] 88, and no header is accepted on
    both, whatever [atop_126] declares. *)
Theorem no_header_is_compatible_on_both_platforms m (h : HeaderObject) :
  (fst (check_compatibility lp64 m h) = Returned tt -> rawreclen h = 96)
  /\ (fst (check_compatibility ilp32 m h) = Returned tt -> rawreclen h = 88)
  /\ ~ (fst (check_compatibility lp64 m h) = Returned tt
        /\ fst (check_compatibility ilp32 m h) = Returned tt).
Proof.
  assert (A : fst (check_compatibility lp64 m h) = Returned tt ->
              rawreclen h = 96).
  { intros H. apply check_compatibility_accepts in H.
    destruct H as [_ [_ [_ ->]]]. reflexivity. }
  assert (B : fst (check_compatibility ilp32 m h) = Returned tt ->
              rawreclen h = 88).
  { intros H. apply check_compatibility_accepts in H.
    destruct H as [_ [_ [_ ->]]]. reflexivity. }
  split; [exact A|]. split; [exact B|].
  intros [Ha Hb]. apply A in Ha. apply B in Hb. congruence.
Qed.

(** X5: calling [check_compatibility] and then [get_version] gives the
    version when the header is compatible and the compatibility error
    otherwise; calling them in the other order gives the same outcome, and
    either way the header is left as it was. *)
Theorem check_and_version_commute abi m (h : HeaderObject) :
  check_then_version abi m h
  = (match fst (check_compatibility abi m h) with
     | Returned _ => fst (get_version h)
     | Raised e => Raised e
     end, h)
  /\ version_then_check abi m h = check_then_version abi m h.
Proof.
  destruct (get_version_run h) as [q [Hrun _]].
  unfold check_then_version, version_then_check, bind.
  rewrite Hrun. rewrite check_compatibility_unfold. cbv zeta.
  destruct (negb _); cbn [fst]; rewrite ?Hrun; split; reflexivity.
Qed.

(** ** More on the layouts *)

Lemma fields_align_nonzero (sa : list (N * N)) : fields_align sa <> 0.
Proof.
  unfold fields_align. induction sa as [|x rest IH]; simpl; lia.
Qed.

Lemma size_multiple_of_alignment abi (t : ctype) :
  sane abi ->
  alignment abi t <> 0 /\ sizeof abi t mod alignment abi t = 0.
Proof.
  intros [Hs [Ha [Hm [Hla Hlm]]]]. unfold alignment, sizeof.
  induction t as [ | | | | | | | |e n [IHa IHm]|name fs _] using ctype_ind;
    cbn [size_align fst snd]; try (split; [discriminate | reflexivity]);
    try (split; assumption).
  - split; [exact IHa|].
    rewrite <- N.Div0.mul_mod_idemp_r, IHm, N.mul_0_r. apply N.Div0.mod_0_l.
  - split; [apply fields_align_nonzero|].
    apply round_up_multiple. apply fields_align_nonzero.
Qed.

(** X6: on a sane ABI the size of every declared layout, and of every
    array in it, is a multiple of its alignment, and the alignment is not
    zero: the entries of [PerCPU * MAXCPU] and of the other arrays follow
    one another each at its own alignment. *)
Theorem declared_sizes_are_multiples_of_alignment abi m :
  sane abi ->
  Forall (fun t => alignment abi t <> 0 /\ sizeof abi t mod alignment abi t = 0)
         (declared m)
  /\ (forall i, i < MAXCPU ->
        (i * sizeof abi (PerCPU m)) mod alignment abi (PerCPU m) = 0).
Proof.
  intros Habi. split.
  - apply Forall_forall. intros t _. apply size_multiple_of_alignment, Habi.
  - intros i _.
    destruct (size_multiple_of_alignment abi (PerCPU m) Habi) as [_ Hm].
    rewrite <- N.Div0.mul_mod_idemp_r, Hm, N.mul_0_r. apply N.Div0.mod_0_l.
Qed.

Lemma lp64_sane : sane lp64.
Proof. repeat split; discriminate. Defined.

Lemma ilp32_sane : sane ilp32.
Proof. repeat split; discriminate. Defined.

Lemma declared_sizes_are_multiples_of_alignment_witness :
  sane lp64
  /\ Forall (fun t => alignment lp64 t <> 0
                      /\ sizeof lp64 t mod alignment lp64 t = 0)
            (declared atop_126_sample)
  /\ (forall i, i < MAXCPU ->
        (i * sizeof lp64 (PerCPU atop_126_sample))
          mod alignment lp64 (PerCPU atop_126_sample) = 0).
Proof.
  split; [exact lp64_sane|].
  apply (declared_sizes_are_multiples_of_alignment lp64 atop_126_sample).
  exact lp64_sane.
Defined.

Lemma fields_in_order (sa : list (N * N)) :
  forall off,
    in_order off (combine (fields_offsets off sa) (map fst sa))
             (fields_end off sa).
Proof.
  induction sa as [|[s a] rest IH]; intros off; simpl; [lia|].
  split; [apply round_up_ge | apply IH].
Qed.

Lemma in_order_weaken (sp : list (N * N)) :
  forall lo hi hi', hi <= hi' -> in_order lo sp hi -> in_order lo sp hi'.
Proof.
  induction sp as [|[o w] rest IH]; intros lo hi hi' Hle; simpl; [lia|].
  intros [Hlo H]. split; [exact Hlo | eapply IH; eassumption].
Qed.

Lemma structure_fields_in_order abi name fs :
  in_order 0 (spans abi (Structure name fs)) (sizeof abi (Structure name fs)).
Proof.
  unfold spans, sizeof, field_types. rewrite size_align_struct.
  cbn [_fields_ fst].
  set (sa := map (size_align abi) (map snd fs)).
  replace (map (fun t => fst (size_align abi t)) (map snd fs)) with (map fst sa)
    by (unfold sa; rewrite map_map; reflexivity).
  eapply in_order_weaken; [apply round_up_ge | apply fields_in_order].
Qed.

(** X7: in every declared layout, and on every ABI, the fields lie inside
    the structure one after the other without overlapping: each field
    starts at or after the end of the one before it, and the last one ends
    at or before [sizeof]. *)
Theorem declared_fields_do_not_overlap abi m :
  Forall (fun t => in_order 0 (spans abi t) (sizeof abi t)
                   /\ List.length (spans abi t) = List.length (_fields_ t))
         (declared m).
Proof.
  eapply Forall_impl; [|apply declared_are_structures].
  intros t [name [fs ->]]. split; [apply structure_fields_in_order|].
  unfold spans, field_types. cbn [_fields_].
  rewrite length_combine, !length_map.
  assert (H : forall sa off, List.length (fields_offsets off sa) = List.length sa).
  { induction sa as [|[s a] rest IH]; intros off; simpl; [|rewrite IH];
      reflexivity. }
  rewrite H, !length_map. apply Nat.min_id.
Qed.

Lemma distinct_NoDup (l : list string) : distinct l = true -> NoDup l.
Proof.
  induction l as [|x rest IH]; simpl; [constructor|].
  intros H. apply andb_true_iff in H. destruct H as [Hx Hrest].
  constructor; [|apply IH, Hrest].
  intros Hin. apply negb_true_iff in Hx.
  assert (Ht : existsb (String.eqb x) rest = true).
  { apply existsb_exists. exists x. split; [exact Hin | apply String.eqb_refl]. }
  congruence.
Qed.

(** X8: no declared layout has two fields of the same name, so looking a
    field up by name finds the one field of that name. *)
Theorem declared_field_names_are_distinct m :
  Forall (fun t => NoDup (field_names t)) (declared m).
Proof.
  unfold declared.
  repeat (constructor; [apply distinct_NoDup; vm_compute; reflexivity|]).
  constructor.
Qed.

(** ** More on decoding *)

Lemma take_takes (n : nat) :
  forall bs front rest,
    take n bs = Some (front, rest) ->
    bs = (front ++ rest)%list
    /\ List.length front = n
    /\ forall other, take n (front ++ other)%list = Some (front, other).
Proof.
  induction n as [|n IH]; intros bs front rest H; simpl in H.
  - injection H as <- <-. repeat split.
  - destruct bs as [|b bs']; [discriminate|].
    destruct (take n bs') as [[f r]|] eqn:E; [|discriminate].
    injection H as <- <-. destruct (IH _ _ _ E) as [-> [Hlen Hother]].
    repeat split; [simpl; now rewrite Hlen|].
    intros other. simpl. rewrite Hother. reflexivity.
Qed.

Lemma read_scalar_takes abi t :
  takes (read_scalar abi t) (N.to_nat (sizeof abi t)).
Proof.
  intros bs v rest H. unfold read_scalar in *.
  destruct (take _ bs) as [[raw r]|] eqn:E; [|discriminate].
  injection H as <- <-. destruct (take_takes _ _ _ _ E) as [-> [Hlen Hother]].
  exists raw. repeat split; [exact Hlen|].
  intros other. rewrite Hother. reflexivity.
Qed.

Lemma read_many_takes (d : reader cvalue) (n : nat) :
  takes d n -> forall k, takes (read_many d k) (k * n).
Proof.
  intros Hd k. induction k as [|k IH]; intros bs vs rest H; simpl in H.
  - injection H as <- <-. exists []. repeat split.
  - destruct (d bs) as [[v r1]|] eqn:E1; [|discriminate].
    destruct (read_many d k r1) as [[vs' r2]|] eqn:E2; [|discriminate].
    injection H as <- <-.
    destruct (Hd _ _ _ E1) as [f1 [-> [L1 O1]]].
    destruct (IH _ _ _ E2) as [f2 [-> [L2 O2]]].
    exists (f1 ++ f2)%list. repeat split.
    + now rewrite app_assoc.
    + rewrite length_app. simpl. lia.
    + intros other. simpl. rewrite <- app_assoc, O1, O2. reflexivity.
Qed.

Lemma read_fields_takes (D : ctype -> reader cvalue) (SA : ctype -> N * N)
      (fl : list (string * ctype)) :
  Forall (fun f => takes (D (snd f)) (N.to_nat (fst (SA (snd f))))) fl ->
  forall off,
    takes (read_fields (map (fun f => (fst f, D (snd f), SA (snd f))) fl) off)
          (N.to_nat (fields_end off (map (fun f => SA (snd f)) fl) - off)).
Proof.
  induction 1 as [|[name t] fl Hf Hfl IH]; intros off bs vs rest H.
  - simpl in H. injection H as <- <-. exists []. simpl.
    repeat split. lia.
  - cbn [map read_fields fields_end fst snd] in *.
    destruct (SA t) as [s a] eqn:Esa. cbn [fst] in Hf.
    pose proof (round_up_ge off a) as Hup.
    pose proof (fields_end_ge (map (fun f => SA (snd f)) fl) (round_up off a + s))
      as Hend.
    destruct (take _ bs) as [[gap bs1]|] eqn:E0; [|discriminate].
    destruct (D t bs1) as [[v bs2]|] eqn:E1; [|discriminate].
    destruct (read_fields _ _ bs2) as [[vs' bs3]|] eqn:E2; [|discriminate].
    injection H as <- <-.
    destruct (take_takes _ _ _ _ E0) as [-> [L0 O0]].
    destruct (Hf _ _ _ E1) as [f1 [-> [L1 O1]]].
    destruct (IH _ _ _ _ E2) as [f2 [-> [L2 O2]]].
    exists (gap ++ f1 ++ f2)%list. repeat split.
    + now rewrite <- !app_assoc.
    + rewrite !length_app. lia.
    + intros other. rewrite <- !app_assoc, O0, O1, O2. reflexivity.
Qed.

Lemma decode_takes abi (t : ctype) :
  takes (decode abi t) (N.to_nat (sizeof abi t)).
Proof.
  induction t as [ | | | | | | | |e n IH|name fs IH] using ctype_ind;
    try apply read_scalar_takes.
  - intros bs v rest H. cbn [decode] in *.
    destruct (read_many _ _ bs) as [[vs r]|] eqn:E; [|discriminate].
    injection H as <- <-.
    destruct (read_many_takes _ _ IH _ _ _ _ E) as [front [-> [L O]]].
    exists front. repeat split.
    + unfold sizeof in *. cbn [size_align fst]. rewrite N2Nat.inj_mul. exact L.
    + intros other. rewrite O. reflexivity.
  - intros bs v rest H. cbn [decode] in *.
    pose proof (read_fields_takes (decode abi) (size_align abi) fs IH 0) as Hfs.
    unfold sizeof. cbn [size_align fst].
    set (sa := map (fun f => size_align abi (snd f)) fs) in *.
    pose proof (round_up_ge (fields_end 0 sa) (fields_align sa)) as Hup.
    destruct (read_fields _ 0 bs) as [[vs r1]|] eqn:E1; [|discriminate].
    destruct (take _ r1) as [[gap r2]|] eqn:E2; [|discriminate].
    injection H as <- <-.
    destruct (Hfs _ _ _ E1) as [f1 [-> [L1 O1]]].
    destruct (take_takes _ _ _ _ E2) as [-> [L2 O2]].
    exists (f1 ++ gap)%list. repeat split.
    + now rewrite app_assoc.
    + rewrite length_app. lia.
    + intros other. rewrite <- app_assoc, O1, O2. reflexivity.
Qed.

(** X9: decoding any declared layout fails exactly on buffers shorter
    than [sizeof]; when it succeeds it has consumed exactly the first
    [sizeof] bytes, the rest of the buffer is handed back untouched, and
    the object does not depend on that rest. *)
Theorem decode_consumes_exactly_sizeof abi m :
  Forall (fun t =>
            forall bs,
              match decode abi t bs with
              | Some (v, rest) =>
                  exists front,
                    bs = (front ++ rest)%list
                    /\ List.length front = N.to_nat (sizeof abi t)
                    /\ forall other,
                         decode abi t (front ++ other)%list = Some (v, other)
              | None => (List.length bs < N.to_nat (sizeof abi t))%nat
              end)
         (declared m).
Proof.
  apply Forall_forall. intros t _ bs.
  pose proof (decode_reads abi t bs) as Hr.
  destruct (decode abi t bs) as [[v rest]|] eqn:E; [|exact Hr].
  exact (decode_takes abi t _ _ _ E).
Qed.

Lemma little_endian_bound (raw : list Byte.byte) :
  little_endian raw < 2 ^ (8 * N.of_nat (List.length raw)).
Proof.
  induction raw as [|b rest IH]; [simpl; lia|].
  change (little_endian (b :: rest))
    with (Byte.to_N b + 256 * little_endian rest).
  pose proof (Byte.to_N_bounded b) as Hb.
  replace (8 * N.of_nat (List.length (b :: rest)))
    with (8 + 8 * N.of_nat (List.length rest)) by (simpl List.length; lia).
  rewrite N.pow_add_r. change (2 ^ 8) with 256. nia.
Qed.

Lemma signed_range (bits n : N) :
  bits <> 0 -> n < 2 ^ bits ->
  (- 2 ^ (Z.of_N bits - 1) <= signed bits n < 2 ^ (Z.of_N bits - 1))%Z.
Proof.
  intros Hb Hn. unfold signed.
  assert (Hpow : 2 ^ bits = 2 * 2 ^ (bits - 1)).
  { rewrite <- N.pow_succ_r'. f_equal. lia. }
  assert (Hz : (2 ^ (Z.of_N bits - 1) = Z.of_N (2 ^ (bits - 1)))%Z).
  { rewrite N2Z.inj_pow. f_equal. lia. }
  assert (Hz' : (2 ^ Z.of_N bits = Z.of_N (2 ^ bits))%Z).
  { rewrite N2Z.inj_pow. reflexivity. }
  rewrite Hz. destruct (N.ltb_spec n (2 ^ (bits - 1))); [lia|].
  rewrite Hz'. lia.
Qed.

Lemma read_scalar_reads_sized abi t (P : cvalue -> Prop) :
  (forall raw, List.length raw = N.to_nat (sizeof abi t) ->
               P (scalar_value t raw)) ->
  reads (read_scalar abi t) (N.to_nat (sizeof abi t)) P.
Proof.
  intros HP bs. unfold read_scalar.
  pose proof (take_reads (N.to_nat (sizeof abi t)) bs) as H.
  destruct (take (N.to_nat (sizeof abi t)) bs) as [[raw rest]|]; [|exact H].
  destruct H as [Hlen Hraw]. split; [exact Hlen | apply HP, Hraw].
Qed.

Lemma read_fields_reads_with (P : ctype -> cvalue -> Prop)
      (D : ctype -> reader cvalue) (SA : ctype -> N * N)
      (fl : list (string * ctype)) :
  Forall (fun f => reads (D (snd f)) (N.to_nat (fst (SA (snd f))))
                         (P (snd f))) fl ->
  forall off,
    reads (read_fields (map (fun f => (fst f, D (snd f), SA (snd f))) fl) off)
          (N.to_nat (fields_end off (map (fun f => SA (snd f)) fl) - off))
          (fun vs =>
             Forall2 (fun f fv => fst f = fst fv /\ P (snd f) (snd fv)) fl vs).
Proof.
  induction 1 as [|[name t] fl Hf Hfl IH]; intros off bs.
  - simpl. split; [lia | constructor].
  - cbn [map read_fields fields_end fst snd] in *.
    destruct (SA t) as [s a] eqn:Esa. cbn [fst] in Hf.
    pose proof (round_up_ge off a) as Hup.
    pose proof (fields_end_ge (map (fun f => SA (snd f)) fl) (round_up off a + s))
      as Hend.
    pose proof (take_reads (N.to_nat (round_up off a - off)) bs) as Htake.
    destruct (take (N.to_nat (round_up off a - off)) bs) as [[gap bs1]|];
      [|lia].
    destruct Htake as [Hlen1 _].
    specialize (Hf bs1). destruct (D t bs1) as [[v bs2]|]; [|lia].
    destruct Hf as [Hlen2 Hv].
    specialize (IH (round_up off a + s) bs2).
    destruct (read_fields _ _ bs2) as [[vs bs3]|]; [|lia].
    destruct IH as [Hlen3 Hvs].
    split; [lia|]. constructor; [split; [reflexivity | exact Hv] | exact Hvs].
Qed.

Lemma unsigned_ranged abi t (raw : list Byte.byte) (bytes : N) :
  int_range abi t = Some (0, 2 ^ (8 * Z.of_N bytes))%Z ->
  List.length raw = N.to_nat bytes ->
  ranged abi t (V_int (Z.of_N (little_endian raw))).
Proof.
  intros Hr Hlen. eapply ranged_int; [exact Hr|].
  pose proof (little_endian_bound raw) as Hb. rewrite Hlen, N2Nat.id in Hb.
  split; [lia|].
  replace (2 ^ (8 * Z.of_N bytes))%Z with (Z.of_N (2 ^ (8 * bytes)))
    by (rewrite N2Z.inj_pow; f_equal; lia).
  lia.
Qed.

Lemma signed_ranged abi t (raw : list Byte.byte) (bytes : N) :
  bytes <> 0 ->
  int_range abi t
  = Some (- 2 ^ (8 * Z.of_N bytes - 1), 2 ^ (8 * Z.of_N bytes - 1))%Z ->
  List.length raw = N.to_nat bytes ->
  ranged abi t
         (V_int (signed (8 * N.of_nat (List.length raw)) (little_endian raw))).
Proof.
  intros Hnz Hr Hlen. eapply ranged_int; [exact Hr|].
  pose proof (little_endian_bound raw) as Hb. rewrite Hlen, N2Nat.id in *.
  pose proof (signed_range (8 * bytes) (little_endian raw)) as Hs.
  replace (Z.of_N (8 * bytes) - 1)%Z with (8 * Z.of_N bytes - 1)%Z in Hs by lia.
  apply Hs; [lia | exact Hb].
Qed.

Lemma decode_ranged abi (t : ctype) :
  sane abi ->
  reads (decode abi t) (N.to_nat (sizeof abi t)) (ranged abi t).
Proof.
  intros [Hs _].
  induction t as [ | | | | | | | |e n IH|name fs IH] using ctype_ind.
  - apply read_scalar_reads. intros raw. constructor.
  - apply read_scalar_reads_sized. intros raw Hlen.
    apply (unsigned_ranged abi c_ushort raw 2); [reflexivity | exact Hlen].
  - apply read_scalar_reads_sized. intros raw Hlen.
    apply (signed_ranged abi c_int raw 4); [discriminate | reflexivity | exact Hlen].
  - apply read_scalar_reads_sized. intros raw Hlen.
    apply (unsigned_ranged abi c_uint raw 4); [reflexivity | exact Hlen].
  - apply read_scalar_reads_sized. intros raw Hlen.
    apply (signed_ranged abi c_long raw (long_size abi));
      [exact Hs | reflexivity | exact Hlen].
  - apply read_scalar_reads_sized. intros raw Hlen.
    apply (unsigned_ranged abi c_ulong raw (long_size abi));
      [reflexivity | exact Hlen].
  - apply read_scalar_reads_sized. intros raw Hlen.
    apply (signed_ranged abi c_longlong raw 8);
      [discriminate | reflexivity | exact Hlen].
  - apply read_scalar_reads_sized. intros raw Hlen.
    cbn [scalar_value]. constructor.
    pose proof (little_endian_bound raw) as Hb. rewrite Hlen in Hb. exact Hb.
  - intros bs. cbn [decode].
    pose proof (read_many_reads _ _ _ IH (N.to_nat n) bs) as H.
    destruct (read_many (decode abi e) (N.to_nat n) bs) as [[vs rest]|].
    + destruct H as [Hlen [Hk Hvs]]. split.
      * unfold sizeof in *. cbn [size_align fst]. rewrite N2Nat.inj_mul. lia.
      * constructor; assumption.
    + unfold sizeof in *. cbn [size_align fst]. rewrite N2Nat.inj_mul. lia.
  - intros bs. cbn [decode].
    pose proof (read_fields_reads_with (ranged abi) (decode abi)
                  (size_align abi) fs IH 0 bs) as H.
    unfold sizeof. cbn [size_align fst].
    set (sa := map (fun f => size_align abi (snd f)) fs) in *.
    pose proof (round_up_ge (fields_end 0 sa) (fields_align sa)) as Hup.
    destruct (read_fields _ 0 bs) as [[vs rest]|]; [|lia].
    destruct H as [Hlen Hvs].
    pose proof (take_reads
                  (N.to_nat (round_up (fields_end 0 sa) (fields_align sa)
                             - fields_end 0 sa)) rest) as Htake.
    destruct (take _ rest) as [[gap rest']|]; [|lia].
    destruct Htake as [Hlen' _]. split; [lia | constructor; exact Hvs].
Qed.

Lemma ranged_field abi (fs : list (string * ctype)) vs f t :
  Forall2 (fun d fv => fst d = fst fv /\ ranged abi (snd d) (snd fv)) fs vs ->
  assoc f fs = Some t ->
  exists v, assoc f vs = Some v /\ ranged abi t v.
Proof.
  induction 1 as [|[n t'] [n' v'] fs vs [Hn Hi] _ IH]; simpl; [discriminate|].
  simpl in Hn, Hi. subst n'. destruct (String.eqb f n).
  - intros [= <-]. eauto.
  - exact IH.
Qed.

Lemma ranged_path abi (p : list string) :
  forall t v t',
    ranged abi t v -> tpath p t = Some t' ->
    exists v', vpath p v = Some v' /\ ranged abi t' v'.
Proof.
  induction p as [|f p IH]; intros t v t' Hr Ht; simpl in *.
  - injection Ht as <-. eauto.
  - destruct (field_type t f) as [tf|] eqn:Ef; [|discriminate].
    unfold field_type in Ef.
    destruct Hr as [b|bits Hb|t z lo hi Hi Hz|e n vs Hvs|name fs vs H];
      try (simpl in Ef; discriminate).
    { destruct t; simpl in Ef, Hi; discriminate. }
    simpl in Ef.
    destruct (ranged_field abi fs vs f tf H Ef) as [vf [Hvf Hrf]].
    simpl. rewrite Hvf. eapply IH; eassumption.
Qed.

Lemma ranged_integer abi (p : list string) t v ti lo hi :
  ranged abi t v ->
  tpath p t = Some ti ->
  int_range abi ti = Some (lo, hi) ->
  exists z, vpath p v = Some (V_int z) /\ (lo <= z < hi)%Z.
Proof.
  intros Hr Ht Hi.
  destruct (ranged_path abi p t v ti Hr Ht) as [vi [Hp Hri]].
  rewrite Hp.
  destruct Hri as [b|bits Hb|t' z lo' hi' Hi' Hz|e n vs Hvs|name fs vs H];
    try discriminate Hi.
  rewrite Hi in Hi'. injection Hi' as <- <-. eauto.
Qed.

(** X10: on a sane ABI every integer in a decoded object is a value of
    the C type its field is declared with.  In particular the [aversion]
    of a decoded header is a 16-bit number, its [sstatlen] a 32-bit one,
    and the [ndeviat] of a decoded record is at least 0 and less than
    2^32. *)
Theorem decoded_integers_fit_their_types abi m (bs : list Byte.byte) :
  sane abi ->
  Forall (fun t =>
            match decode abi t bs with
            | Some (v, _) => ranged abi t v
            | None => True
            end) (declared m)
  /\ match decode abi (Header m) bs with
     | Some (h, _) =>
         exists a s,
           vpath ["aversion"] h = Some (V_int a) /\ (0 <= a < 2 ^ 16)%Z
           /\ vpath ["sstatlen"] h = Some (V_int s) /\ (0 <= s < 2 ^ 32)%Z
     | None => True
     end
  /\ match decode abi Record bs with
     | Some (r, _) =>
         exists n, vpath ["ndeviat"] r = Some (V_int n) /\ (0 <= n < 2 ^ 32)%Z
     | None => True
     end.
Proof.
  intros Habi. split; [|split].
  - apply Forall_forall. intros t _.
    pose proof (decode_ranged abi t Habi bs) as H.
    destruct (decode abi t bs) as [[v rest]|]; [apply H | exact I].
  - pose proof (decode_ranged abi (Header m) Habi bs) as H.
    destruct (decode abi (Header m) bs) as [[h rest]|]; [|exact I].
    destruct H as [_ Hr].
    destruct (ranged_integer abi ["aversion"] _ _ c_ushort _ _ Hr
                eq_refl eq_refl) as [a [Ha Hra]].
    destruct (ranged_integer abi ["sstatlen"] _ _ c_uint _ _ Hr
                eq_refl eq_refl) as [s [Hs Hrs]].
    exists a, s. repeat split; assumption || apply Hra || apply Hrs.
  - pose proof (decode_ranged abi Record Habi bs) as H.
    destruct (decode abi Record bs) as [[r rest]|]; [|exact I].
    destruct H as [_ Hr].
    destruct (ranged_integer abi ["ndeviat"] _ _ c_uint _ _ Hr
                eq_refl eq_refl) as [n [Hn Hrn]].
    exists n. split; assumption.
Qed.

Lemma decoded_integers_fit_their_types_witness :
  sane lp64
  /\ Forall (fun t =>
               match decode lp64 t (repeat Byte.xff 480) with
               | Some (v, _) => ranged lp64 t v
               | None => True
               end) (declared atop_126_sample)
  /\ match decode lp64 (Header atop_126_sample) (repeat Byte.xff 480) with
     | Some (h, _) =>
         exists a s,
           vpath ["aversion"] h = Some (V_int a) /\ (0 <= a < 2 ^ 16)%Z
           /\ vpath ["sstatlen"] h = Some (V_int s) /\ (0 <= s < 2 ^ 32)%Z
     | None => True
     end
  /\ match decode lp64 Record (repeat Byte.xff 480) with
     | Some (r, _) =>
         exists n, vpath ["ndeviat"] r = Some (V_int n) /\ (0 <= n < 2 ^ 32)%Z
     | None => True
     end.
Proof.
  split; [exact lp64_sane|].
  apply (decoded_integers_fit_their_types lp64 atop_126_sample
           (repeat Byte.xff 480)).
  exact lp64_sane.
Defined.

(** A record of 96 bytes [0xff]: the unsigned fields read as their
    largest value, the signed [curtime] as -1. *)
Example Record_of_all_ones :
  match decode lp64 Record (repeat Byte.xff 96) with
  | Some (r, rest) =>
      vpath ["curtime"] r = Some (V_int (-1))
      /\ vpath ["flags"] r = Some (V_int 65535)
      /\ vpath ["ndeviat"] r = Some (V_int 4294967295)
      /\ rest = []
  | None => False
  end.
Proof. vm_compute. repeat split. Qed.

(** ** The header in front of the system identification *)

(** X11: the fields of [Header] up to [tstatlen] lie at the same offsets
    on every ABI and whatever [atop_126] declares: [magic] at 0, [aversion]
    at 4, [rawheadlen] at 10, [rawreclen] at 12, [sstatlen] at 28 and
    [tstatlen] at 32; [utsname] follows at the first multiple of its
    alignment from 36 on. *)
Theorem Header_prefix_offsets abi m :
  firstn 10 (offsets abi (Header m))
  = [("magic", 0); ("aversion", 4); ("future1", 6); ("future2", 8);
     ("rawheadlen", 10); ("rawreclen", 12); ("hertz", 14); ("sfuture", 16);
     ("sstatlen", 28); ("tstatlen", 32)]
  /\ offsetof abi (Header m) "utsname"
     = Some (round_up 36 (alignment abi (UTSName m)))
  /\ offsetof abi (Header m) "rawheadlen" = Some 10
  /\ offsetof abi (Header m) "rawreclen" = Some 12
  /\ offsetof abi (Header m) "sstatlen" = Some 28
  /\ offsetof abi (Header m) "tstatlen" = Some 32.
Proof.
  unfold offsetof, offsets, field_names, field_types, alignment.
  cbn [Header _fields_ map fst snd].
  destruct (size_align abi (UTSName m)) as [s a].
  repeat apply conj; reflexivity.
Qed.

(** ** Accepted headers and decoding *)

(** X12: when [check_compatibility] accepts a header, its four length
    fields are the numbers of bytes decoding consumes: a [Header] takes
    [rawheadlen] bytes, a [Record] [rawreclen], an [SStat] [sstatlen] and a
    [TStat] [tstatlen], and decoding fails exactly on buffers shorter than
    that. *)
Theorem accepted_lengths_are_decoded_lengths abi m (h : HeaderObject)
        (bs : list Byte.byte) :
  fst (check_compatibility abi m h) = Returned tt ->
  reads (decode abi (Header m)) (N.to_nat (rawheadlen h)) (instance_of (Header m))
  /\ reads (decode abi Record) (N.to_nat (rawreclen h)) (instance_of Record)
  /\ reads (decode abi (SStat m)) (N.to_nat (sstatlen h)) (instance_of (SStat m))
  /\ reads (decode abi (TStat m)) (N.to_nat (tstatlen h)) (instance_of (TStat m))
  /\ match decode abi Record bs with
     | Some (_, rest) =>
         List.length bs = (N.to_nat (rawreclen h) + List.length rest)%nat
     | None => (List.length bs < N.to_nat (rawreclen h))%nat
     end.
Proof.
  intros H. apply check_compatibility_accepts in H.
  destruct H as [-> [-> [-> ->]]].
  repeat apply conj; try apply decode_reads.
  pose proof (decode_reads abi Record bs) as Hr.
  destruct (decode abi Record bs) as [[v rest]|]; [apply Hr | exact Hr].
Qed.

Lemma accepted_lengths_are_decoded_lengths_witness :
  let h := header_2_3 lp64 atop_126_sample in
  let m := atop_126_sample in
  let bs := repeat Byte.x00 100 in
  fst (check_compatibility lp64 m h) = Returned tt
  /\ rawreclen h = 96
  /\ reads (decode lp64 (Header m)) (N.to_nat (rawheadlen h)) (instance_of (Header m))
  /\ reads (decode lp64 Record) (N.to_nat (rawreclen h)) (instance_of Record)
  /\ reads (decode lp64 (SStat m)) (N.to_nat (sstatlen h)) (instance_of (SStat m))
  /\ reads (decode lp64 (TStat m)) (N.to_nat (tstatlen h)) (instance_of (TStat m))
  /\ match decode lp64 Record bs with
     | Some (_, rest) =>
         List.length bs = (N.to_nat (rawreclen h) + List.length rest)%nat
     | None => (List.length bs < N.to_nat (rawreclen h))%nat
     end.
Proof.
  cbv zeta.
  assert (H : fst (check_compatibility lp64 atop_126_sample
                     (header_2_3 lp64 atop_126_sample)) = Returned tt)
    by (vm_compute; reflexivity).
  split; [exact H|]. split; [reflexivity|].
  apply (accepted_lengths_are_decoded_lengths lp64 atop_126_sample
           (header_2_3 lp64 atop_126_sample) (repeat Byte.x00 100) H).
Defined.
